(** * sonar_web: the sonar-log parser of [app.js]

    A shallow embedding of [parseSonarFile], [parseFrame] and [getAverage]
    (app.js, lines 71-196) and of the part of the JavaScript runtime they
    call: [DataView] reads, the [Uint8Array] constructor and indexing,
    IEEE-754 binary64 arithmetic, [Math.floor] and [new Date].

    - An [ArrayBuffer] is a [list byte].
    - A JavaScript Number that holds a real quantity is a [spec_float] at
      precision 53 and maximal exponent 1024 (binary64), with the operations
      of the Standard Library's [SpecFloat].
    - Byte offsets, sizes, counters and the 16/32-bit integers read from the
      buffer are [Z].
    - A call either returns, throws [RangeError], or (for the [while] loop
      only) runs out of fuel; the loop is shown never to run out. *)

From Stdlib Require Import ZArith List Bool Lia.
From Stdlib.Strings Require Import String Ascii Byte.
From Stdlib.Floats Require Import SpecFloat.
Import ListNotations.
Local Open Scope Z_scope.

(** ** Outcomes of a call *)

Inductive exn : Set := RangeError.

Inductive outcome (A : Type) : Type :=
| Returns (a : A)
| Throws (e : exn)
| OutOfFuel.

Arguments Returns {A} a.
Arguments Throws {A} e.
Arguments OutOfFuel {A}.

Definition bind {A B : Type} (c : outcome A) (k : A -> outcome B) : outcome B :=
  match c with
  | Returns a => k a
  | Throws e => Throws e
  | OutOfFuel => OutOfFuel
  end.

Notation "x <- c ;; k" := (bind c (fun x => k))
  (at level 61, c at next level, right associativity).

(** ** The JavaScript runtime the parser calls *)

Module Js.

(** *** Numbers: IEEE-754 binary64 *)

Definition Number : Set := spec_float.

Definition num_of_Z (z : Z) : Number := binary_normalize 53 1024 z 0 false.
Definition num_add : Number -> Number -> Number := SFadd 53 1024.
Definition num_sub : Number -> Number -> Number := SFsub 53 1024.
Definition num_mul : Number -> Number -> Number := SFmul 53 1024.
Definition num_div : Number -> Number -> Number := SFdiv 53 1024.
(** [a < b], [a <= b], [a > b]: false as soon as one side is NaN. *)
Definition num_ltb : Number -> Number -> bool := SFltb.
Definition num_leb : Number -> Number -> bool := SFleb.
Definition num_gtb (a b : Number) : bool := SFltb b a.

(** *** Integral Numbers

    [Math.floor] returns NaN, an infinity or an integer, and the typed-array
    index arithmetic of [getAverage] stays in that set; such a Number is kept
    with its exact integer value.  Both zeros are [IInt 0]: the parser only
    compares and indexes with them, which does not tell [-0] from [+0]. *)

Inductive Integral : Set :=
| INaN
| IInf (negative : bool)
| IInt (z : Z).

Definition int_ltb (a b : Integral) : bool :=
  match a, b with
  | INaN, _ | _, INaN => false
  | IInf sa, IInf sb => sa && negb sb
  | IInf sa, IInt _ => sa
  | IInt _, IInf sb => negb sb
  | IInt x, IInt y => x <? y
  end.

Definition int_geb (a b : Integral) : bool :=
  match a, b with
  | INaN, _ | _, INaN => false
  | IInf sa, IInf sb => negb sa || sb
  | IInf sa, IInt _ => negb sa
  | IInt _, IInf sb => sb
  | IInt x, IInt y => x >=? y
  end.

(** [a + b]; on two integers the sum is exact, as it is in binary64 below
    2^53, which covers every index and every sum of at most 100 bytes. *)
Definition int_add (a b : Integral) : Integral :=
  match a, b with
  | INaN, _ | _, INaN => INaN
  | IInf sa, IInf sb => if Bool.eqb sa sb then IInf sa else INaN
  | IInf sa, IInt _ => IInf sa
  | IInt _, IInf sb => IInf sb
  | IInt x, IInt y => IInt (x + y)
  end.

Definition num_of_Integral (a : Integral) : Number :=
  match a with
  | INaN => S754_nan
  | IInf s => S754_infinity s
  | IInt z => num_of_Z z
  end.

(** [Math.floor]: the value [(-1)^s * m * 2^e] rounded towards minus
    infinity; [Z.shiftl] by a negative amount is the flooring right shift. *)
Definition Math_floor (v : Number) : Integral :=
  match v with
  | S754_nan => INaN
  | S754_infinity s => IInf s
  | S754_zero _ => IInt 0
  | S754_finite s m e => IInt (Z.shiftl (cond_Zopp s (Zpos m)) e)
  end.

(** *** Dates

    [new Date(v)] keeps [TimeClip(v)]: no time value (an invalid date) when
    [v] is not finite or beyond 8.64e15 ms in magnitude, else [v] truncated
    towards zero, in milliseconds since the epoch. *)
Definition Date : Set := option Z.

Definition truncate (s : bool) (m : positive) (e : Z) : Z :=
  cond_Zopp s (Z.shiftl (Zpos m) e).

(** [m * 2^e > 8.64e15], compared exactly. *)
Definition beyond_time_range (m : positive) (e : Z) : bool :=
  if 0 <=? e then Z.shiftl (Zpos m) e >? 8640000000000000
  else Zpos m >? Z.shiftl 8640000000000000 (- e).

Definition Date_new (v : Number) : Date :=
  match v with
  | S754_nan | S754_infinity _ => None
  | S754_zero _ => Some 0
  | S754_finite s m e =>
      if beyond_time_range m e then None else Some (truncate s m e)
  end.

(** *** ArrayBuffer and DataView (little-endian reads only: every call of
    the parser passes [true] for [littleEndian]) *)

Definition ArrayBuffer : Set := list byte.

Definition byteLength (buffer : ArrayBuffer) : Z := Z.of_nat (List.length buffer).

Definition byte_val (b : byte) : Z := Z.of_N (Byte.to_N b).

(** The [size] bytes from [byteOffset] on, as numbers. *)
Definition bytes_at (buffer : ArrayBuffer) (byteOffset size : Z) : list Z :=
  map byte_val (firstn (Z.to_nat size) (skipn (Z.to_nat byteOffset) buffer)).

Fixpoint le_value (bs : list Z) : Z :=
  match bs with
  | [] => 0
  | b :: bs' => Z.lor b (Z.shiftl (le_value bs') 8)
  end.

(** A read of [size] bytes at [byteOffset] throws RangeError unless
    [0 <= byteOffset] and [byteOffset + size <= byteLength]. *)
Definition in_view (view : ArrayBuffer) (byteOffset size : Z) : bool :=
  (0 <=? byteOffset) && (byteOffset + size <=? byteLength view).

Definition getUint (size : Z) (view : ArrayBuffer) (byteOffset : Z) : outcome Z :=
  if in_view view byteOffset size
  then Returns (le_value (bytes_at view byteOffset size))
  else Throws RangeError.

Definition to_signed (bits u : Z) : Z :=
  if Z.testbit u (bits - 1) then u - Z.shiftl 1 bits else u.

Definition getUint16 : ArrayBuffer -> Z -> outcome Z := getUint 2.
Definition getUint32 : ArrayBuffer -> Z -> outcome Z := getUint 4.
Definition getInt16 (view : ArrayBuffer) (byteOffset : Z) : outcome Z :=
  u <- getUint 2 view byteOffset ;; Returns (to_signed 16 u).
Definition getInt32 (view : ArrayBuffer) (byteOffset : Z) : outcome Z :=
  u <- getUint 4 view byteOffset ;; Returns (to_signed 32 u).

(** The binary32 value with bit pattern [u], as a binary64 Number (the
    conversion is exact). *)
Definition float32_of_bits (u : Z) : Number :=
  let s := Z.testbit u 31 in
  let e := Z.land (Z.shiftr u 23) 255 in
  let f := Z.land u 8388607 in
  if e =? 255 then (if f =? 0 then S754_infinity s else S754_nan)
  else if e =? 0 then binary_normalize 53 1024 (cond_Zopp s f) (-149) s
  else binary_normalize 53 1024 (cond_Zopp s (Z.lor f 8388608)) (e - 150) s.

Definition getFloat32 (view : ArrayBuffer) (byteOffset : Z) : outcome Number :=
  u <- getUint 4 view byteOffset ;; Returns (float32_of_bits u).

(** *** Uint8Array

    [new Uint8Array(buffer, byteOffset, length)] throws RangeError on a
    negative offset or length and when the view would pass the end of the
    buffer; otherwise it is the window of [length] bytes at [byteOffset]. *)
Definition Uint8Array : Set := list byte.

Definition Uint8Array_new (buffer : ArrayBuffer) (byteOffset length : Z)
  : outcome Uint8Array :=
  if (byteOffset <? 0) || (length <? 0) || (byteOffset + length >? byteLength buffer)
  then Throws RangeError
  else Returns (firstn (Z.to_nat length) (skipn (Z.to_nat byteOffset) buffer)).

(** [array[index]] with a Number index: the element when the index is an
    integer inside the array, [undefined] ([None]) otherwise. *)
Definition Uint8Array_get (array : Uint8Array) (index : Integral) : option Z :=
  match index with
  | IInt i => if (0 <=? i) && (i <? byteLength array)
              then option_map byte_val (nth_error array (Z.to_nat i))
              else None
  | _ => None
  end.

(** [sum += v] where [v] may be [undefined], which makes the sum NaN. *)
Definition add_element (sum : Integral) (v : option Z) : Integral :=
  match v with
  | Some b => int_add sum (IInt b)
  | None => INaN
  end.

End Js.

(** ** The parser of app.js *)

Module App.
Import Js.

(** *** File name to format: [fileName.split('.').pop().toLowerCase()]

    File names are [string]s of 8-bit characters; [toLowerCase] acts on
    the letters A-Z. *)

Fixpoint split (sep : ascii) (s : string) : list string :=
  match s with
  | EmptyString => [EmptyString]
  | String c s' =>
      if Ascii.eqb c sep then EmptyString :: split sep s'
      else match split sep s' with
           | h :: t => String c h :: t
           | [] => [String c EmptyString]
           end
  end.

(** [pop] of a non-empty array is its last element ([split] never returns
    an empty array). *)
Definition pop (parts : list string) : string := last parts EmptyString.

Definition lower_char (c : ascii) : ascii :=
  let n := nat_of_ascii c in
  if ((65 <=? n) && (n <=? 90))%nat then ascii_of_nat (n + 32) else c.

Fixpoint toLowerCase (s : string) : string :=
  match s with
  | EmptyString => EmptyString
  | String c s' => String (lower_char c) (toLowerCase s')
  end.

Definition extension (fileName : string) : string :=
  toLowerCase (pop (split "."%char fileName)).

Definition isSl3_of (fileName : string) : bool :=
  String.eqb (extension fileName) "sl3"%string.

(** *** Constants *)

(** [0.3048], the binary64 nearest to it: 0x1.381d7dbf487fdp-2. *)
Definition FEET_TO_METERS : Number := S754_finite false 5490788665690109 (-54).

(** [6356752.3142] is 0x1.83fc4141bda51p+22 and [Math.PI] is
    0x1.921fb54442d18p+1. *)
Definition EARTH_RADIUS : Number := S754_finite false 6825510824565329 (-30).
Definition Math_PI : Number := S754_finite false 7074237752028440 (-51).

(** *** Coordinate transform (app.js 156-157) *)


(** [x / 6356752.3142 * (180 / Math.PI)] *)
Definition longitude_of (x : Z) : Number :=
  num_mul (num_div (num_of_Z x) EARTH_RADIUS)
          (num_div (num_of_Z 180) Math_PI).


(** *** Records *)

(** The object [parseFrame] returns, but for [frame.latitude]: that field
    is [latitude_of (y frame) M] for the engine's [M], a function of
    [frame.y] alone, and no Number before [M] is known. *)
Record Frame : Set := {
  min_range : Number;
  max_range : Number;
  water_depth : Number;
  x : Z;
  y : Z;
  frame_size : Z;
  header_size : Z;
  longitude : Number;
  timestamp : Date;
  bottom_density_1 : option Z;
  bottom_density_10 : Number;
  bottom_density_100 : Number
}.

(** *** getAverage (app.js 185-196) *)

Record Average : Set := { sum : Integral; avg : Number; count : Z }.

(** The [for] loop, [remaining] iterations from counter [i] on. *)
Fixpoint getAverage_loop (array : Uint8Array) (index : Integral)
    (remaining : nat) (i : Z) (sum : Integral) (actualCount : Z)
  : Integral * Z :=
  match remaining with
  | O => (sum, actualCount)
  | S remaining' =>
      let currentIndex := int_add index (IInt i) in
      if int_ltb currentIndex (IInt (byteLength array))
      then getAverage_loop array index remaining' (i + 1)
             (add_element sum (Uint8Array_get array currentIndex))
             (actualCount + 1)
      else getAverage_loop array index remaining' (i + 1) sum actualCount
  end.

Definition getAverage (array : Uint8Array) (index : Integral) (count : Z)
  : Average :=
  let '(sum, actualCount) :=
    getAverage_loop array index (Z.to_nat count) 0 (IInt 0) 0 in
  {| sum := sum;
     avg := if actualCount >? 0
            then num_div (num_of_Integral sum) (num_of_Z actualCount)
            else num_of_Z 0;
     count := actualCount |}.

(** *** parseFrame (app.js 117-183) *)

(** The fields one branch of [if (isSl3)] sets, with [secondsOffset]. *)
Record Header : Set := {
  h_min_range : Number;
  h_max_range : Number;
  h_water_depth : Number;
  h_x : Z;
  h_y : Z;
  h_secondsOffset : Number;
  h_frame_size : Z;
  h_header_size : Z
}.

(** One branch of [if (isSl3)], at the branch's literal offsets; [None] is
    the early [return null] on a non-primary channel. *)
Definition readHeader (view : ArrayBuffer) (position : Z)
    (o_survey o_min o_max o_depth o_x o_y o_ms o_size headerSize : Z)
  : outcome (option Header) :=
  surveyType <- getUint16 view (position + o_survey) ;;
  if negb (surveyType =? 0) then Returns None else
  fmin <- getFloat32 view (position + o_min) ;;
  fmax <- getFloat32 view (position + o_max) ;;
  fdepth <- getFloat32 view (position + o_depth) ;;
  fx <- getInt32 view (position + o_x) ;;
  fy <- getInt32 view (position + o_y) ;;
  ms <- getUint32 view (position + o_ms) ;;
  fsize <- getUint16 view (position + o_size) ;;
  Returns (Some {|
    h_min_range := num_mul fmin FEET_TO_METERS;
    h_max_range := num_mul fmax FEET_TO_METERS;
    h_water_depth := num_mul fdepth FEET_TO_METERS;
    h_x := fx;
    h_y := fy;
    h_secondsOffset := num_div (num_of_Z ms) (num_of_Z 1000);
    h_frame_size := fsize;
    h_header_size := headerSize |}).

Definition bottom_index_of (signalLength : Z) (min_range max_range water_depth : Number)
  : Integral :=
  Math_floor (num_mul (num_div (num_of_Z signalLength)
                               (num_sub max_range min_range))
                      water_depth).

Definition parseFrame (view : ArrayBuffer) (position : Z) (isSl3 : bool)
    (startTime : Z) : outcome (option Frame) :=
  header <- (if isSl3
             then readHeader view position 12 20 24 48 92 96 124 8 168
             else readHeader view position 32 40 44 64 108 112 140 28 144) ;;
  match header with
  | None => Returns None
  | Some h =>
      (* Ignore points with no coordinates *)
      if (h_x h =? 0) || (h_y h =? 0) then Returns None else
      (* Coordinate conversion *)
      let longitude := longitude_of (h_x h) in
      (* Timestamp *)
      let timestampInSeconds := num_add (num_of_Z startTime) (h_secondsOffset h) in
      let timestamp := Date_new (num_mul timestampInSeconds (num_of_Z 1000)) in
      (* Sonar signal data *)
      let signalDataStart := position + h_header_size h in
      let signalDataEnd := position + h_frame_size h in
      signalData <- Uint8Array_new view signalDataStart
                      (signalDataEnd - signalDataStart) ;;
      if num_leb (h_max_range h) (h_min_range h) then Returns None else
      let bottom_index :=
        bottom_index_of (byteLength signalData)
          (h_min_range h) (h_max_range h) (h_water_depth h) in
      if int_ltb bottom_index (IInt 0)
         || int_geb bottom_index (IInt (byteLength signalData))
      then Returns None else
      let avg10 := getAverage signalData bottom_index 10 in
      let avg100 := getAverage signalData bottom_index 100 in
      Returns (Some {|
        min_range := h_min_range h;
        max_range := h_max_range h;
        water_depth := h_water_depth h;
        x := h_x h;
        y := h_y h;
        frame_size := h_frame_size h;
        header_size := h_header_size h;
        longitude := longitude;
        timestamp := timestamp;
        bottom_density_1 := Uint8Array_get signalData bottom_index;
        bottom_density_10 := avg avg10;
        bottom_density_100 := avg avg100 |})
  end.

(** *** parseSonarFile (app.js 71-115) *)

(** [if (frameData && frameData.water_depth > 0) data.push(frameData)] *)
Definition push_frame (data : list Frame) (frameData : option Frame) : list Frame :=
  match frameData with
  | Some frame =>
      if num_gtb (water_depth frame) (num_of_Z 0) then data ++ [frame] else data
  | None => data
  end.

(** The [while (position < arrayBuffer.byteLength)] loop, at most [fuel]
    iterations. *)
Fixpoint while_frames (fuel : nat) (view : ArrayBuffer) (isSl3 : bool)
    (startTime : Z) (position : Z) (data : list Frame)
  : outcome (list Frame) :=
  if negb (position <? byteLength view) then Returns data else
  match fuel with
  | O => OutOfFuel
  | S fuel' =>
      let frameHeaderSize := if isSl3 then 168 else 144 in
      if position + frameHeaderSize >? byteLength view then Returns data else
      frameSize <- getUint16 view (position + (if isSl3 then 8 else 28)) ;;
      if (frameSize =? 0) || (position + frameSize >? byteLength view)
      then Returns data else
      frameData <- parseFrame view position isSl3 startTime ;;
      while_frames fuel' view isSl3 startTime (position + frameSize)
        (push_frame data frameData)
  end.

Definition parseSonarFile (arrayBuffer : ArrayBuffer) (fileName : string)
  : outcome (list Frame) :=
  let view := arrayBuffer in
  let isSl3 := isSl3_of fileName in
  let fileHeaderSize := 8 in
  (* File header *)
  version <- getInt16 view 0 ;;
  deviceId <- getInt16 view 2 ;;
  let position := fileHeaderSize in
  if position >=? byteLength arrayBuffer then Returns [] else
  let firstFrameHardWareTimeOffset := if isSl3 then 40 else 60 in
  startTime <- getUint32 view (position + firstFrameHardWareTimeOffset) ;;
  while_frames (List.length arrayBuffer) view isSl3 startTime position [].

End App.

Import Js App.

(** ** Vocabulary of the statements *)

(** The per-format constants that app.js writes as [isSl3 ? a : b]. *)
Definition headerSize (isSl3 : bool) : Z := if isSl3 then 168 else 144.
Definition frameSizeOffset (isSl3 : bool) : Z := if isSl3 then 8 else 28.
Definition timeBaseOffset (isSl3 : bool) : Z := if isSl3 then 40 else 60.
Definition millisOffset (isSl3 : bool) : Z := if isSl3 then 124 else 140.
Definition surveyOffset (isSl3 : bool) : Z := if isSl3 then 12 else 32.
Definition minRangeOffset (isSl3 : bool) : Z := if isSl3 then 20 else 40.
Definition maxRangeOffset (isSl3 : bool) : Z := if isSl3 then 24 else 44.
Definition depthOffset (isSl3 : bool) : Z := if isSl3 then 48 else 64.
Definition xOffset (isSl3 : bool) : Z := if isSl3 then 92 else 108.
Definition yOffset (isSl3 : bool) : Z := if isSl3 then 96 else 112.

(** The loop of [parseSonarFile] with as much fuel as bytes remain. *)
Definition scan (view : ArrayBuffer) (isSl3 : bool) (startTime position : Z)
    (data : list Frame) : outcome (list Frame) :=
  while_frames (Z.to_nat (byteLength view - position)) view isSl3 startTime
    position data.

(** The cursor positions at which the loop hands a frame to [parseFrame]:
    the guards of [while_frames] without the decoding. *)
Fixpoint frame_positions (fuel : nat) (view : ArrayBuffer) (isSl3 : bool)
    (position : Z) : list Z :=
  if negb (position <? byteLength view) then [] else
  match fuel with
  | O => []
  | S fuel' =>
      if position + headerSize isSl3 >? byteLength view then [] else
      match getUint16 view (position + frameSizeOffset isSl3) with
      | Returns frameSize =>
          if (frameSize =? 0) || (position + frameSize >? byteLength view)
          then []
          else position :: frame_positions fuel' view isSl3 (position + frameSize)
      | _ => []
      end
  end.

Definition scanned_frames (view : ArrayBuffer) (isSl3 : bool) : list Z :=
  frame_positions (List.length view) view isSl3 8.

(** The frame at [position] declares a size that covers its header. *)
Definition well_sized (view : ArrayBuffer) (isSl3 : bool) (position : Z) : Prop :=
  exists frameSize,
    getUint16 view (position + frameSizeOffset isSl3) = Returns frameSize /\
    headerSize isSl3 <= frameSize.

(** The records the frames at [positions] contribute, in order. *)
Definition record_of (view : ArrayBuffer) (isSl3 : bool) (startTime position : Z)
  : list Frame :=
  match parseFrame view position isSl3 startTime with
  | Returns frameData => push_frame [] frameData
  | _ => []
  end.

Definition records_of (view : ArrayBuffer) (isSl3 : bool) (startTime : Z)
    (positions : list Z) : list Frame :=
  flat_map (record_of view isSl3 startTime) positions.

Definition is_prefix {A : Type} (l1 l2 : list A) : Prop :=
  exists rest, l2 = l1 ++ rest.

(** The buffer cut after its first [n] bytes. *)
Definition truncated (n : Z) (buffer : ArrayBuffer) : ArrayBuffer :=
  firstn (Z.to_nat n) buffer.

(** The arithmetic mean of a run of samples: their sum over their number. *)
Definition total (samples : list byte) : Z :=
  fold_right (fun b acc => byte_val b + acc) 0 samples.

Definition mean (samples : list byte) : Number :=
  num_div (num_of_Z (total samples)) (num_of_Z (Z.of_nat (List.length samples))).

(** [signal[index .. index + k)], clipped to the end of the signal. *)
Definition window (signal : list byte) (index k : Z) : list byte :=
  firstn (Z.to_nat k) (skipn (Z.to_nat index) signal).

(** The timestamp the parser gives a frame: time base plus the frame's own
    milliseconds over 1000, as a date. *)
Definition timestamp_of (timeBase millis : Z) : Date :=
  Date_new (num_mul (num_add (num_of_Z timeBase)
                             (num_div (num_of_Z millis) (num_of_Z 1000)))
                    (num_of_Z 1000)).

(** Buffer lengths at which neither the file-header reads nor the
    time-base read leave the buffer: nothing follows the 8-byte file header
    and its two 16-bit fields fit, or the 32-bit time-base field of the
    first frame fits. *)
Definition readable_length (isSl3 : bool) (n : Z) : Prop :=
  4 <= n <= 8 \/ 12 + timeBaseOffset isSl3 <= n.

Fixpoint has_dot (s : string) : bool :=
  match s with
  | EmptyString => false
  | String c s' => Ascii.eqb c "."%char || has_dot s'
  end.

(** What a frame returned by [parseFrame] was decoded from: every read,
    every test passed, and the window [signal] of the buffer it sampled. *)
Record decoded (view : ArrayBuffer) (position : Z) (isSl3 : bool)
    (startTime : Z) (f : Frame) (signal : Uint8Array) : Prop := {
  dec_survey : getUint16 view (position + surveyOffset isSl3) = Returns 0;
  dec_min : exists feet,
      getFloat32 view (position + minRangeOffset isSl3) = Returns feet
      /\ min_range f = num_mul feet FEET_TO_METERS;
  dec_max : exists feet,
      getFloat32 view (position + maxRangeOffset isSl3) = Returns feet
      /\ max_range f = num_mul feet FEET_TO_METERS;
  dec_depth : exists feet,
      getFloat32 view (position + depthOffset isSl3) = Returns feet
      /\ water_depth f = num_mul feet FEET_TO_METERS;
  dec_x : getInt32 view (position + xOffset isSl3) = Returns (x f);
  dec_y : getInt32 view (position + yOffset isSl3) = Returns (y f);
  dec_time : exists millis,
      getUint32 view (position + millisOffset isSl3) = Returns millis
      /\ timestamp f = timestamp_of startTime millis;
  dec_frame_size :
    getUint16 view (position + frameSizeOffset isSl3) = Returns (frame_size f);
  dec_header_size : header_size f = headerSize isSl3;
  dec_x_nonzero : x f <> 0;
  dec_y_nonzero : y f <> 0;
  dec_longitude : longitude f = longitude_of (x f);
  dec_signal :
    Uint8Array_new view (position + header_size f)
      (frame_size f - header_size f) = Returns signal;
  dec_range : num_leb (max_range f) (min_range f) = false;
  dec_index_low :
    int_ltb (bottom_index_of (byteLength signal)
               (min_range f) (max_range f) (water_depth f))
            (IInt 0) = false;
  dec_index_high :
    int_geb (bottom_index_of (byteLength signal)
               (min_range f) (max_range f) (water_depth f))
            (IInt (byteLength signal)) = false;
  dec_density_1 :
    bottom_density_1 f =
    Uint8Array_get signal
      (bottom_index_of (byteLength signal)
         (min_range f) (max_range f) (water_depth f));
  dec_density_10 :
    bottom_density_10 f =
    avg (getAverage signal
           (bottom_index_of (byteLength signal)
              (min_range f) (max_range f) (water_depth f)) 10);
  dec_density_100 :
    bottom_density_100 f =
    avg (getAverage signal
           (bottom_index_of (byteLength signal)
              (min_range f) (max_range f) (water_depth f)) 100)
}.

(** The bottom index and the densities of a returned frame [f], in terms
    of its signal run [signal] of length [frame_size f - header_size f]:
    the index is [floor (L / (max_range - min_range) * water_depth)] on the
    stored (metric) values; when it is the integer [i], the single-sample
    density is [signal[i]] and the 10- and 100-sample densities are the
    means of the windows clipped at the end of the signal; when it is NaN,
    the single-sample density is [undefined] and both averages are the
    literal 0 of [getAverage] on no sample. *)
Record sampled (f : Frame) (signal : Uint8Array) : Prop := {
  smp_length : byteLength signal = frame_size f - header_size f;
  smp_density_1 :
    bottom_density_1 f =
    Uint8Array_get signal
      (bottom_index_of (frame_size f - header_size f)
         (min_range f) (max_range f) (water_depth f));
  smp_index :
    bottom_index_of (frame_size f - header_size f)
      (min_range f) (max_range f) (water_depth f) = INaN \/
    exists i,
      bottom_index_of (frame_size f - header_size f)
        (min_range f) (max_range f) (water_depth f) = IInt i /\
      0 <= i < frame_size f - header_size f;
  smp_at_index : forall i,
    bottom_index_of (frame_size f - header_size f)
      (min_range f) (max_range f) (water_depth f) = IInt i ->
    bottom_density_1 f = option_map byte_val (nth_error signal (Z.to_nat i)) /\
    bottom_density_10 f = mean (window signal i 10) /\
    Z.of_nat (List.length (window signal i 10))
      = Z.min 10 (frame_size f - header_size f - i) /\
    bottom_density_100 f = mean (window signal i 100) /\
    Z.of_nat (List.length (window signal i 100))
      = Z.min 100 (frame_size f - header_size f - i);
  smp_at_nan :
    bottom_index_of (frame_size f - header_size f)
      (min_range f) (max_range f) (water_depth f) = INaN ->
    bottom_density_1 f = None /\
    bottom_density_10 f = num_of_Z 0 /\
    bottom_density_100 f = num_of_Z 0
}.

(** ** updateMapColors: the range of the selected attribute
       (app.js 259-265)

    [let min = Infinity; let max = -Infinity;] then, for each record,
    [if (v < min) min = v; if (v > max) max = v;].  [values] are the
    Numbers that [p[colorAttribute]] compares as, one per record, NaN for
    [undefined]. *)
Fixpoint color_range_loop (values : list Number) (min max : Number)
  : Number * Number :=
  match values with
  | [] => (min, max)
  | v :: rest =>
      let min := if num_ltb v min then v else min in
      let max := if num_gtb v max then v else max in
      color_range_loop rest min max
  end.

Definition color_range (attribute : Frame -> Number) (processedData : list Frame)
  : Number * Number :=
  color_range_loop (map attribute processedData)
    (S754_infinity false) (S754_infinity true).

(** ** Vocabulary of the further properties *)

(** The size the frame at [position] declares (0 when the field cannot be
    read). *)
Definition declared_size (view : ArrayBuffer) (isSl3 : bool) (position : Z) : Z :=
  match getUint16 view (position + frameSizeOffset isSl3) with
  | Returns frameSize => frameSize
  | _ => 0
  end.

(** [positions] starts at [position] and each next element is the previous
    one plus the size it declares. *)
Fixpoint chained (view : ArrayBuffer) (isSl3 : bool) (position : Z)
    (positions : list Z) : Prop :=
  match positions with
  | [] => True
  | p :: rest =>
      p = position /\ chained view isSl3 (p + declared_size view isSl3 p) rest
  end.

(** Where the scan stands after the frames at [positions]. *)
Fixpoint cursor_after (view : ArrayBuffer) (isSl3 : bool) (position : Z)
    (positions : list Z) : Z :=
  match positions with
  | [] => position
  | p :: rest => cursor_after view isSl3 (p + declared_size view isSl3 p) rest
  end.

Definition sum_Z (l : list Z) : Z := fold_right Z.add 0 l.

(** The frame at [position] is on the primary channel, has both
    coordinates, and declares fewer bytes than its header takes. *)
Definition undersized_primary (view : ArrayBuffer) (isSl3 : bool) (position : Z)
  : Prop :=
  getUint16 view (position + surveyOffset isSl3) = Returns 0 /\
  (exists fx, getInt32 view (position + xOffset isSl3) = Returns fx /\ fx <> 0) /\
  (exists fy, getInt32 view (position + yOffset isSl3) = Returns fy /\ fy <> 0) /\
  declared_size view isSl3 position < headerSize isSl3.

(** [Number.isNaN]. *)
Definition is_nan (v : Number) : bool :=
  match v with S754_nan => true | _ => false end.

(** A key whose lexicographic order is the order [SFcompare] decides. *)
Definition order_key (v : Number) : Z * Z * Z :=
  match v with
  | S754_nan => (0, 0, 0)
  | S754_infinity true => (-2, 0, 0)
  | S754_finite true m e => (-1, - e, Zneg m)
  | S754_zero _ => (0, 0, 0)
  | S754_finite false m e => (1, e, Zpos m)
  | S754_infinity false => (2, 0, 0)
  end.

Definition key_lt (a b : Z * Z * Z) : Prop :=
  let '(a1, a2, a3) := a in
  let '(b1, b2, b3) := b in
  a1 < b1 \/ (a1 = b1 /\ (a2 < b2 \/ (a2 = b2 /\ a3 < b3))).

(** The spellings of the suffix "sl3", letter case apart. *)
Definition sl3_suffixes : list string :=
  ["sl3"%string; "sL3"%string; "Sl3"%string; "SL3"%string].







(** ** Sample buffers *)

Module Samples.

Definition byte_of_Z (z : Z) : byte :=
  match Byte.of_N (Z.to_N z) with Some b => b | None => x00 end.

Fixpoint le_bytes (n : nat) (v : Z) : list byte :=
  match n with
  | O => []
  | S n' => byte_of_Z (Z.land v 255) :: le_bytes n' (Z.shiftr v 8)
  end.

Definition poke (off : nat) (bs : list byte) (buf : list byte) : list byte :=
  firstn off buf ++ bs ++ skipn (off + List.length bs) buf.

Definition zeros (n : nat) : list byte := repeat x00 n.

(** A format-B (.sl2) frame: a 144-byte header followed by [signal]. *)
Definition sl2_frame (frameSize surveyType minRange maxRange waterDepth
                      fx fy millis hardwareTime : Z) (signal : list Z)
  : list byte :=
  poke 28 (le_bytes 2 frameSize)
 (poke 32 (le_bytes 2 surveyType)
 (poke 40 (le_bytes 4 minRange)
 (poke 44 (le_bytes 4 maxRange)
 (poke 60 (le_bytes 4 hardwareTime)
 (poke 64 (le_bytes 4 waterDepth)
 (poke 108 (le_bytes 4 fx)
 (poke 112 (le_bytes 4 fy)
 (poke 140 (le_bytes 4 millis) (zeros 144)))))))))
  ++ map byte_of_Z signal.

(** binary32 bit patterns: 100.0, 32.8084 and a quiet NaN. *)
Definition f32_100 : Z := 1120403456.
Definition f32_32_8084 : Z := 1107508173.
Definition f32_nan : Z := 2143289344.

Definition ramp : list Z := [10; 20; 30; 40; 50; 60; 70; 80; 90; 100].

(** The file header alone, and one byte more. *)
Definition header_only : ArrayBuffer := zeros 8.
Definition nine_bytes : ArrayBuffer := zeros 9.

(** One primary-channel frame: x = 1000000, y = 2000000, range 0..100 ft,
    depth 32.8084 ft, time base 1700000000, offset 5000 ms. *)
Definition one_frame : ArrayBuffer :=
  zeros 8 ++
  sl2_frame 154 0 0 f32_100 f32_32_8084 1000000 2000000 5000 1700000000 ramp.

(** A side-scan frame (survey type 1) carrying the time base, then a
    primary-channel frame whose own hardware-time field is 7. *)
Definition two_frames : ArrayBuffer :=
  zeros 8 ++
  sl2_frame 150 1 0 f32_100 f32_32_8084 1000000 2000000 2000 1700000000
            [1; 2; 3; 4; 5; 6] ++
  sl2_frame 154 0 0 f32_100 f32_32_8084 1000000 2000000 5001 7 ramp.

(** Two primary-channel frames. *)
Definition two_records : ArrayBuffer :=
  one_frame ++
  sl2_frame 154 0 0 f32_100 f32_32_8084 1000001 2000001 6000 7 ramp.

(** A primary-channel frame whose [min_range] field is NaN. *)
Definition nan_range : ArrayBuffer :=
  zeros 8 ++
  sl2_frame 154 0 f32_nan f32_100 f32_32_8084 1000000 2000000 5000 1700000000
            ramp.

(** A primary-channel frame with coordinates, equal ranges (0 and 0) and a
    declared size of 100 bytes, less than its 144-byte header. *)
Definition short_frame : ArrayBuffer :=
  zeros 8 ++ sl2_frame 100 0 0 0 f32_32_8084 1000000 2000000 5000 1700000000 [].

(** The same frame with a declared size of 144 bytes: an empty signal. *)
Definition equal_ranges : ArrayBuffer :=
  zeros 8 ++ sl2_frame 144 0 0 0 f32_32_8084 1000000 2000000 5000 1700000000 [].

(** The record [one_frame] decodes to: depth 10.000000076 m, bottom index
    3, densities 40 and 70 (the mean of the seven samples from index 3). *)
Definition one_frame_record : Frame :=
  {| min_range := S754_zero false;
     max_range := S754_finite false 8579357290140795 (-48);
     water_depth := S754_finite false 5629499577162793 (-49);
     x := 1000000;
     y := 2000000;
     frame_size := 154;
     header_size := 144;
     longitude := S754_finite false 5074077896046941 (-49);
     timestamp := Some 1700000005000;
     bottom_density_1 := Some 40;
     bottom_density_10 := S754_finite false 4925812092436480 (-46);
     bottom_density_100 := S754_finite false 4925812092436480 (-46) |}.

(** The record of the second frame of [two_frames]: its time base is the
    1700000000 of the first frame, which is rejected, and not the 7 of its
    own hardware-time field. *)
Definition two_frames_record : Frame :=
  {| min_range := S754_zero false;
     max_range := S754_finite false 8579357290140795 (-48);
     water_depth := S754_finite false 5629499577162793 (-49);
     x := 1000000;
     y := 2000000;
     frame_size := 154;
     header_size := 144;
     longitude := S754_finite false 5074077896046941 (-49);
     timestamp := Some 1700000005001;
     bottom_density_1 := Some 40;
     bottom_density_10 := S754_finite false 4925812092436480 (-46);
     bottom_density_100 := S754_finite false 4925812092436480 (-46) |}.

End Samples.

(** * Properties *)

(** ** Reads *)

Lemma in_view_true view off size :
  in_view view off size = true <-> 0 <= off /\ off + size <= byteLength view.
Proof. unfold in_view. rewrite andb_true_iff, !Z.leb_le. tauto. Qed.

Lemma in_view_false view off size :
  in_view view off size = false <-> off < 0 \/ byteLength view < off + size.
Proof.
  unfold in_view. rewrite andb_false_iff, !Z.leb_gt. tauto.
Qed.

Lemma getUint_in view size off :
  0 <= off -> off + size <= byteLength view ->
  getUint size view off = Returns (le_value (bytes_at view off size)).
Proof.
  intros H1 H2. unfold getUint.
  now rewrite (proj2 (in_view_true view off size) (conj H1 H2)).
Qed.

Lemma getUint_out view size off :
  byteLength view < off + size -> getUint size view off = Throws RangeError.
Proof.
  intros H. unfold getUint.
  now rewrite (proj2 (in_view_false view off size) (or_intror H)).
Qed.

Lemma getUint_inv view size off u :
  getUint size view off = Returns u ->
  0 <= off /\ off + size <= byteLength view /\ u = le_value (bytes_at view off size).
Proof.
  unfold getUint. destruct (in_view view off size) eqn:E; [|discriminate].
  intros [= <-]. apply in_view_true in E. tauto.
Qed.

Lemma byte_val_range b : 0 <= byte_val b < 256.
Proof.
  unfold byte_val. pose proof (Byte.to_N_bounded b). lia.
Qed.

Lemma le_value_nonneg bs : Forall (fun b => 0 <= b) bs -> 0 <= le_value bs.
Proof.
  induction 1 as [|b bs Hb _ IH]; cbn [le_value]; [lia|].
  apply Z.lor_nonneg. split; [assumption|]. now apply Z.shiftl_nonneg.
Qed.

Lemma bytes_at_nonneg view off size : Forall (fun b => 0 <= b) (bytes_at view off size).
Proof.
  unfold bytes_at. apply Forall_forall. intros z Hz.
  apply in_map_iff in Hz as (b & <- & _). apply byte_val_range.
Qed.

Lemma getUint_nonneg view size off u : getUint size view off = Returns u -> 0 <= u.
Proof.
  intros H. apply getUint_inv in H as (_ & _ & ->).
  apply le_value_nonneg, bytes_at_nonneg.
Qed.

(** ** Truncation leaves the bytes before the cut as they are *)

Lemma byteLength_truncated n view :
  0 <= n -> byteLength (truncated n view) = Z.min n (byteLength view).
Proof.
  intros Hn. unfold byteLength, truncated. rewrite length_firstn. lia.
Qed.

Lemma window_truncated n view off size :
  0 <= off -> off + size <= n ->
  firstn (Z.to_nat size) (skipn (Z.to_nat off) (truncated n view)) =
  firstn (Z.to_nat size) (skipn (Z.to_nat off) view).
Proof.
  intros Hoff Hn. unfold truncated.
  rewrite skipn_firstn_comm, firstn_firstn. f_equal. apply Nat.min_l. lia.
Qed.

Lemma getUint_truncated n view size off :
  0 <= n -> 0 <= off -> off + size <= n -> n <= byteLength view ->
  getUint size (truncated n view) off = getUint size view off.
Proof.
  intros Hn0 Hoff Hn Hlen. unfold getUint, in_view, bytes_at.
  rewrite byteLength_truncated by lia.
  rewrite window_truncated by lia.
  replace (off + size <=? Z.min n (byteLength view)) with (off + size <=? byteLength view); [reflexivity|].
  apply eq_true_iff_eq. rewrite !Z.leb_le. lia.
Qed.

Lemma Uint8Array_new_truncated n view off len :
  0 <= n -> 0 <= off -> off + len <= n -> n <= byteLength view ->
  Uint8Array_new (truncated n view) off len = Uint8Array_new view off len.
Proof.
  intros Hn0 Hoff Hn Hlen. unfold Uint8Array_new.
  rewrite byteLength_truncated by lia.
  rewrite window_truncated by lia.
  replace (off + len >? Z.min n (byteLength view)) with (off + len >? byteLength view); [reflexivity|].
  apply eq_true_iff_eq. rewrite !Z.gtb_gt. lia.
Qed.

Lemma getUint_cases size view off :
  (exists u, getUint size view off = Returns u) \/
  getUint size view off = Throws RangeError.
Proof. unfold getUint. destruct (in_view view off size); eauto. Qed.

(** Case analysis on every DataView read of the goal. *)
Ltac case_reads :=
  repeat match goal with
         | |- context [getUint ?s ?v ?o] =>
             let u := fresh "u" in
             let E := fresh "E" in
             destruct (getUint_cases s v o) as [[u E] | E];
             rewrite E; cbn [bind]
         end.

Lemma Uint8Array_new_cases buffer off len :
  (exists a, Uint8Array_new buffer off len = Returns a) \/
  Uint8Array_new buffer off len = Throws RangeError.
Proof.
  unfold Uint8Array_new.
  destruct ((off <? 0) || (len <? 0) || (off + len >? byteLength buffer)); eauto.
Qed.

Lemma readHeader_terminates view position a b c d e f g h i :
  readHeader view position a b c d e f g h i <> OutOfFuel.
Proof.
  unfold readHeader, getUint16, getUint32, getInt32, getFloat32.
  case_reads; try discriminate; destruct (negb (_ =? 0)); discriminate.
Qed.

Lemma parseFrame_terminates view position isSl3 startTime :
  parseFrame view position isSl3 startTime <> OutOfFuel.
Proof.
  unfold parseFrame.
  match goal with
  | |- context [bind ?c _] =>
      assert (Hc : c <> OutOfFuel) by
        (destruct isSl3; apply readHeader_terminates);
      destruct c as [[h|] | e |]; cbn [bind]; try discriminate;
      [|contradiction]
  end.
  destruct ((h_x h =? 0) || (h_y h =? 0)); [discriminate|].
  destruct (Uint8Array_new_cases view (position + h_header_size h)
              (position + h_frame_size h - (position + h_header_size h)))
    as [[a E] | E]; rewrite E; cbn [bind]; [|discriminate].
  destruct (num_leb _ _); [discriminate|].
  destruct (_ || _); discriminate.
Qed.

(** ** The loop never runs out of fuel *)

Lemma while_frames_terminates fuel view isSl3 startTime :
  forall position data,
    byteLength view - position <= Z.of_nat fuel ->
    while_frames fuel view isSl3 startTime position data <> OutOfFuel.
Proof.
  induction fuel as [|fuel IH]; intros position data Hfuel; cbn [while_frames].
  - destruct (position <? byteLength view) eqn:E; cbn [negb]; [|discriminate].
    apply Z.ltb_lt in E. lia.
  - destruct (position <? byteLength view) eqn:E; cbn [negb]; [|discriminate].
    destruct (_ >? _); [discriminate|].
    unfold getUint16. case_reads; [|discriminate].
    destruct (u =? 0) eqn:Eu; cbn [orb]; [discriminate|].
    destruct (_ >? _); [discriminate|].
    pose proof (parseFrame_terminates view position isSl3 startTime) as Hp.
    destruct (parseFrame view position isSl3 startTime) as [fd | e |];
      cbn [bind]; [|discriminate|contradiction].
    apply IH. apply getUint_nonneg in E0. apply Z.eqb_neq in Eu. lia.
Qed.

Lemma while_frames_fuel fuel1 : forall fuel2 view isSl3 startTime position data,
    byteLength view - position <= Z.of_nat fuel1 ->
    byteLength view - position <= Z.of_nat fuel2 ->
    while_frames fuel1 view isSl3 startTime position data =
    while_frames fuel2 view isSl3 startTime position data.
Proof.
  induction fuel1 as [|fuel1 IH]; intros fuel2 view isSl3 startTime position data H1 H2.
  - destruct fuel2; cbn [while_frames];
      destruct (position <? byteLength view) eqn:E; cbn [negb]; try reflexivity;
      apply Z.ltb_lt in E; lia.
  - destruct fuel2 as [|fuel2]; cbn [while_frames];
      destruct (position <? byteLength view) eqn:E; cbn [negb]; try reflexivity;
      [apply Z.ltb_lt in E; lia|].
    destruct (_ >? _); [reflexivity|].
    unfold getUint16. case_reads; [|reflexivity].
    destruct (u =? 0) eqn:Eu; cbn [orb]; [reflexivity|].
    destruct (_ >? _); [reflexivity|].
    destruct (parseFrame view position isSl3 startTime) as [fd | e |];
      cbn [bind]; try reflexivity.
    apply getUint_nonneg in E0. apply Z.eqb_neq in Eu.
    apply IH; lia.
Qed.

Lemma while_frames_scan fuel view isSl3 startTime position data :
  byteLength view - position <= Z.of_nat fuel ->
  while_frames fuel view isSl3 startTime position data =
  scan view isSl3 startTime position data.
Proof.
  intros H. unfold scan. apply while_frames_fuel; lia.
Qed.

Lemma scan_terminates view isSl3 startTime position data :
  scan view isSl3 startTime position data <> OutOfFuel.
Proof. unfold scan. apply while_frames_terminates. lia. Qed.

(** [parseSonarFile] is total: on every buffer and file name it returns or
    throws, the fuel of its loop (one unit per byte) is never used up. *)
Lemma parseSonarFile_terminates arrayBuffer fileName :
  parseSonarFile arrayBuffer fileName <> OutOfFuel.
Proof.
  unfold parseSonarFile, getInt16, getUint32.
  case_reads; try discriminate;
    destruct (8 >=? byteLength arrayBuffer); try discriminate.
  apply while_frames_terminates. unfold byteLength. lia.
Qed.

(** The loop body, one iteration at a time. *)
Lemma scan_unfold view isSl3 startTime position data :
  scan view isSl3 startTime position data =
  if negb (position <? byteLength view) then Returns data else
  if position + headerSize isSl3 >? byteLength view then Returns data else
  frameSize <- getUint16 view (position + frameSizeOffset isSl3) ;;
  if (frameSize =? 0) || (position + frameSize >? byteLength view)
  then Returns data else
  frameData <- parseFrame view position isSl3 startTime ;;
  scan view isSl3 startTime (position + frameSize) (push_frame data frameData).
Proof.
  unfold scan at 1.
  destruct (position <? byteLength view) eqn:E.
  - apply Z.ltb_lt in E.
    destruct (Z.to_nat (byteLength view - position)) as [|fuel] eqn:Ef; [lia|].
    cbn [while_frames]. rewrite (proj2 (Z.ltb_lt _ _) E). cbn [negb].
    fold (headerSize isSl3). fold (frameSizeOffset isSl3).
    destruct (_ >? _); [reflexivity|].
    unfold getUint16. case_reads; [|reflexivity].
    destruct (u =? 0) eqn:Eu; cbn [orb]; [reflexivity|].
    destruct (_ >? _); [reflexivity|].
    destruct (parseFrame view position isSl3 startTime) as [fd | e |];
      cbn [bind]; try reflexivity.
    apply getUint_nonneg in E0. apply Z.eqb_neq in Eu.
    apply while_frames_scan. lia.
  - destruct (Z.to_nat (byteLength view - position)); cbn [while_frames];
      rewrite E; reflexivity.
Qed.

(** ** [parseSonarFile] by buffer length *)

Lemma timeBaseOffset_cases isSl3 : timeBaseOffset isSl3 = 40 \/ timeBaseOffset isSl3 = 60.
Proof. destruct isSl3; cbn; auto. Qed.

Lemma headerSize_cases isSl3 :
  (headerSize isSl3 = 168 /\ timeBaseOffset isSl3 = 40 /\ frameSizeOffset isSl3 = 8) \/
  (headerSize isSl3 = 144 /\ timeBaseOffset isSl3 = 60 /\ frameSizeOffset isSl3 = 28).
Proof. destruct isSl3; cbn; auto. Qed.

Lemma geb_false_iff a b : (a >=? b) = false <-> a < b.
Proof. rewrite Z.geb_leb. apply Z.leb_gt. Qed.

Lemma geb_true_iff a b : (a >=? b) = true <-> b <= a.
Proof. rewrite Z.geb_leb. apply Z.leb_le. Qed.

Lemma parseSonarFile_below_4 arrayBuffer fileName :
  byteLength arrayBuffer < 4 ->
  parseSonarFile arrayBuffer fileName = Throws RangeError.
Proof.
  intros H. unfold parseSonarFile, getInt16.
  destruct (getUint_cases 2 arrayBuffer 0) as [[u E] | E]; rewrite E; cbn [bind];
    [|reflexivity].
  rewrite getUint_out by lia. reflexivity.
Qed.

Lemma parseSonarFile_4_to_8 arrayBuffer fileName :
  4 <= byteLength arrayBuffer <= 8 ->
  parseSonarFile arrayBuffer fileName = Returns [].
Proof.
  intros H. unfold parseSonarFile, getInt16.
  rewrite !getUint_in by lia. cbn [bind].
  now rewrite (proj2 (geb_true_iff 8 (byteLength arrayBuffer))) by lia.
Qed.

Lemma parseSonarFile_no_time_base arrayBuffer fileName :
  9 <= byteLength arrayBuffer < 12 + timeBaseOffset (isSl3_of fileName) ->
  parseSonarFile arrayBuffer fileName = Throws RangeError.
Proof.
  intros H. unfold parseSonarFile, getInt16, getUint32.
  fold (timeBaseOffset (isSl3_of fileName)).
  rewrite !(getUint_in _ 2) by lia. cbn [bind].
  rewrite (proj2 (geb_false_iff 8 (byteLength arrayBuffer))) by lia.
  rewrite getUint_out by lia. reflexivity.
Qed.

Lemma parseSonarFile_scan arrayBuffer fileName :
  12 + timeBaseOffset (isSl3_of fileName) <= byteLength arrayBuffer ->
  exists startTime,
    getUint32 arrayBuffer (8 + timeBaseOffset (isSl3_of fileName)) = Returns startTime /\
    parseSonarFile arrayBuffer fileName =
    scan arrayBuffer (isSl3_of fileName) startTime 8 [].
Proof.
  intros H. pose proof (timeBaseOffset_cases (isSl3_of fileName)).
  unfold parseSonarFile, getInt16, getUint32.
  fold (timeBaseOffset (isSl3_of fileName)).
  rewrite !(getUint_in _ 2) by lia. cbn [bind].
  rewrite (proj2 (geb_false_iff 8 (byteLength arrayBuffer))) by lia.
  rewrite (getUint_in _ 4) by lia. cbn [bind].
  eexists. split; [reflexivity|].
  apply while_frames_scan. unfold byteLength. lia.
Qed.

Lemma scan_no_room view isSl3 startTime position data :
  byteLength view - position < headerSize isSl3 ->
  scan view isSl3 startTime position data = Returns data.
Proof.
  intros H. rewrite scan_unfold.
  destruct (position <? byteLength view); cbn [negb]; [|reflexivity].
  now rewrite (proj2 (Z.gtb_gt _ _)) by lia.
Qed.

Lemma parseSonarFile_no_frame_header arrayBuffer fileName :
  12 + timeBaseOffset (isSl3_of fileName) <= byteLength arrayBuffer
    < 8 + headerSize (isSl3_of fileName) ->
  parseSonarFile arrayBuffer fileName = Returns [].
Proof.
  intros [H1 H2].
  destruct (parseSonarFile_scan arrayBuffer fileName H1) as (st & _ & ->).
  apply scan_no_room. lia.
Qed.

(** ** What an accepted frame was decoded from *)

Lemma readHeader_Some view position a b c d e f g h i hd :
  readHeader view position a b c d e f g h i = Returns (Some hd) ->
  getUint16 view (position + a) = Returns 0 /\
  (exists feet, getFloat32 view (position + b) = Returns feet /\
                h_min_range hd = num_mul feet FEET_TO_METERS) /\
  (exists feet, getFloat32 view (position + c) = Returns feet /\
                h_max_range hd = num_mul feet FEET_TO_METERS) /\
  (exists feet, getFloat32 view (position + d) = Returns feet /\
                h_water_depth hd = num_mul feet FEET_TO_METERS) /\
  getInt32 view (position + e) = Returns (h_x hd) /\
  getInt32 view (position + f) = Returns (h_y hd) /\
  (exists millis, getUint32 view (position + g) = Returns millis /\
                  h_secondsOffset hd = num_div (num_of_Z millis) (num_of_Z 1000)) /\
  getUint16 view (position + h) = Returns (h_frame_size hd) /\
  h_header_size hd = i.
Proof.
  unfold readHeader, getUint16, getUint32, getInt32, getFloat32.
  destruct (getUint_cases 2 view (position + a)) as [[u E] | E]; rewrite E;
    cbn [bind]; [|discriminate].
  destruct (u =? 0) eqn:Eu; cbn [negb]; [|discriminate].
  apply Z.eqb_eq in Eu. subst u.
  case_reads; try discriminate.
  intros H. assert (Hhd : hd = ltac:(match type of H with Returns (Some ?r) = _ => exact r end))
    by congruence.
  clear H. subst hd.
  cbn [h_min_range h_max_range h_water_depth h_x h_y h_secondsOffset
       h_frame_size h_header_size].
  repeat split; eauto.
Qed.

Lemma parseFrame_Some view position isSl3 startTime f :
  parseFrame view position isSl3 startTime = Returns (Some f) ->
  exists signal, decoded view position isSl3 startTime f signal.
Proof.
  unfold parseFrame.
  match goal with |- context [bind ?c _] => destruct c as [[hd|] | e |] eqn:Eh end;
    cbn [bind]; try discriminate.
  assert (Hh : readHeader view position (surveyOffset isSl3) (minRangeOffset isSl3)
                 (maxRangeOffset isSl3) (depthOffset isSl3) (xOffset isSl3)
                 (yOffset isSl3) (millisOffset isSl3) (frameSizeOffset isSl3)
                 (headerSize isSl3) = Returns (Some hd))
    by (destruct isSl3; exact Eh).
  clear Eh. apply readHeader_Some in Hh.
  destruct Hh as (Hs & Hmin & Hmax & Hdepth & Hx & Hy & (ms & Hms & Hsec) & Hfs & Hhs).
  destruct ((h_x hd =? 0) || (h_y hd =? 0)) eqn:Exy; [discriminate|].
  apply orb_false_iff in Exy as [Ex Ey].
  apply Z.eqb_neq in Ex. apply Z.eqb_neq in Ey.
  replace (position + h_frame_size hd - (position + h_header_size hd))
    with (h_frame_size hd - h_header_size hd) by ring.
  destruct (Uint8Array_new_cases view (position + h_header_size hd)
              (h_frame_size hd - h_header_size hd)) as [[signal Es] | Es];
    rewrite Es; cbn [bind]; [|discriminate].
  destruct (num_leb (h_max_range hd) (h_min_range hd)) eqn:Er; [discriminate|].
  destruct (int_ltb _ _ || int_geb _ _) eqn:Ei; [discriminate|].
  apply orb_false_iff in Ei as [Elow Ehigh].
  intros H. exists signal.
  assert (Hf : f = ltac:(match type of H with Returns (Some ?r) = _ => exact r end))
    by congruence.
  clear H. subst f.
  constructor;
    cbn [min_range max_range water_depth x y frame_size header_size
         longitude timestamp
         bottom_density_1 bottom_density_10 bottom_density_100];
    try assumption; try reflexivity.
  exists ms. split; [assumption|]. unfold timestamp_of. now rewrite Hsec.
Qed.

(** ** The frames the scan visits *)

Lemma frame_positions_In fuel view isSl3 : forall position p,
  0 <= position ->
  In p (frame_positions fuel view isSl3 position) ->
  position <= p /\ p + headerSize isSl3 <= byteLength view /\
  exists frameSize,
    getUint16 view (p + frameSizeOffset isSl3) = Returns frameSize /\
    0 < frameSize /\ p + frameSize <= byteLength view.
Proof.
  induction fuel as [|fuel IH]; intros position p Hpos; cbn [frame_positions];
    destruct (position <? byteLength view); cbn [negb]; try contradiction.
  destruct (position + headerSize isSl3 >? byteLength view) eqn:Eh; [contradiction|].
  destruct (getUint16 view (position + frameSizeOffset isSl3)) as [fs| |] eqn:Efs;
    try contradiction.
  destruct (fs =? 0) eqn:E0; cbn [orb]; [contradiction|].
  destruct (position + fs >? byteLength view) eqn:Eover; [contradiction|].
  apply Z.eqb_neq in E0. pose proof (getUint_nonneg _ _ _ _ Efs).
  assert (position + headerSize isSl3 <= byteLength view)
    by (destruct (Z.gtb_spec (position + headerSize isSl3) (byteLength view)); [discriminate|lia]).
  assert (position + fs <= byteLength view)
    by (destruct (Z.gtb_spec (position + fs) (byteLength view)); [discriminate|lia]).
  intros [<- | Hin].
  - split; [lia|]. split; [assumption|]. exists fs. repeat split; [assumption|lia|lia].
  - destruct (IH (position + fs) p ltac:(lia) Hin) as (? & ? & ?).
    split; [lia|]. split; assumption.
Qed.

Lemma push_frame_app data frameData :
  push_frame data frameData = data ++ push_frame [] frameData.
Proof.
  unfold push_frame. destruct frameData as [f|]; [|now rewrite app_nil_r].
  destruct (num_gtb _ _); [reflexivity|now rewrite app_nil_r].
Qed.

Lemma while_frames_records fuel view isSl3 startTime :
  forall position data records,
    while_frames fuel view isSl3 startTime position data = Returns records ->
    records = data ++ records_of view isSl3 startTime
                        (frame_positions fuel view isSl3 position).
Proof.
  induction fuel as [|fuel IH]; intros position data records;
    cbn [while_frames frame_positions];
    destruct (position <? byteLength view); cbn [negb];
    try (intros [= <-]; cbn; now rewrite app_nil_r); try discriminate.
  fold (headerSize isSl3). fold (frameSizeOffset isSl3).
  destruct (position + headerSize isSl3 >? byteLength view);
    [intros [= <-]; cbn; now rewrite app_nil_r|].
  destruct (getUint16 view (position + frameSizeOffset isSl3)) as [fs| |];
    cbn [bind]; try discriminate.
  destruct ((fs =? 0) || (position + fs >? byteLength view));
    [intros [= <-]; cbn; now rewrite app_nil_r|].
  destruct (parseFrame view position isSl3 startTime) as [fd| |] eqn:Ep;
    cbn [bind]; try discriminate.
  intros H. apply IH in H. rewrite H.
  unfold records_of. cbn [flat_map]. unfold record_of at 2. rewrite Ep.
  rewrite (push_frame_app data fd). now rewrite <- app_assoc.
Qed.

(** ** A frame whose declared size covers its header decodes without error *)

Lemma gtb_false_iff a b : (a >? b) = false <-> a <= b.
Proof. rewrite Z.gtb_ltb. apply Z.ltb_ge. Qed.

Lemma Uint8Array_new_in buffer off len :
  0 <= off -> 0 <= len -> off + len <= byteLength buffer ->
  Uint8Array_new buffer off len =
  Returns (firstn (Z.to_nat len) (skipn (Z.to_nat off) buffer)).
Proof.
  intros H1 H2 H3. unfold Uint8Array_new.
  rewrite (proj2 (Z.ltb_ge off 0)), (proj2 (Z.ltb_ge len 0)) by assumption.
  now rewrite (proj2 (gtb_false_iff _ _)) by assumption.
Qed.

Lemma parseFrame_returns view position isSl3 startTime frameSize :
  0 <= position ->
  position + headerSize isSl3 <= byteLength view ->
  getUint16 view (position + frameSizeOffset isSl3) = Returns frameSize ->
  headerSize isSl3 <= frameSize ->
  position + frameSize <= byteLength view ->
  exists frameData, parseFrame view position isSl3 startTime = Returns frameData.
Proof.
  intros Hpos Hhdr Hfs Hsize Hend.
  apply getUint_inv in Hfs as (_ & _ & Hfs).
  unfold parseFrame.
  destruct isSl3; cbn [headerSize frameSizeOffset] in *;
    unfold readHeader, getUint16, getUint32, getInt32, getFloat32;
    rewrite (getUint_in view 2) by lia; cbn [bind];
    (destruct (negb _); [cbn [bind]; eauto|]);
    rewrite !(getUint_in view 4) by lia; cbn [bind];
    rewrite !(getUint_in view 2) by lia; cbn [bind];
    cbn [h_min_range h_max_range h_water_depth h_x h_y h_secondsOffset
         h_frame_size h_header_size];
    (destruct (_ || _); [eauto|]);
    rewrite <- Hfs;
    rewrite Uint8Array_new_in by lia; cbn [bind];
    (destruct (num_leb _ _); [eauto|]);
    (destruct (_ || _); eauto).
Qed.

Lemma while_frames_safe fuel view isSl3 startTime : forall position data,
  0 <= position ->
  byteLength view - position <= Z.of_nat fuel ->
  Forall (well_sized view isSl3) (frame_positions fuel view isSl3 position) ->
  while_frames fuel view isSl3 startTime position data =
  Returns (data ++ records_of view isSl3 startTime
                     (frame_positions fuel view isSl3 position)).
Proof.
  intros position data Hpos Hfuel Hall.
  enough (exists records,
             while_frames fuel view isSl3 startTime position data = Returns records)
    as [records H] by (rewrite H; f_equal; eapply while_frames_records; eassumption).
  revert position data Hpos Hfuel Hall.
  induction fuel as [|fuel IH]; intros position data Hpos Hfuel;
    cbn [while_frames frame_positions];
    destruct (position <? byteLength view) eqn:Elt; cbn [negb]; eauto.
  - apply Z.ltb_lt in Elt. lia.
  - fold (headerSize isSl3). fold (frameSizeOffset isSl3).
    destruct (position + headerSize isSl3 >? byteLength view) eqn:Eh; [eauto|].
    apply gtb_false_iff in Eh.
    destruct (getUint16 view (position + frameSizeOffset isSl3)) as [fs| |] eqn:Efs;
      cbn [bind].
    2:{ unfold getUint16 in Efs. destruct (headerSize_cases isSl3) as [(?&?&?)|(?&?&?)];
        rewrite getUint_in in Efs by lia; discriminate. }
    2:{ unfold getUint16, getUint in Efs. destruct (in_view _ _ _); discriminate. }
    destruct (fs =? 0) eqn:E0; cbn [orb]; [eauto|].
    destruct (position + fs >? byteLength view) eqn:Eover; [eauto|].
    apply gtb_false_iff in Eover. apply Z.eqb_neq in E0.
    pose proof (getUint_nonneg _ _ _ _ Efs).
    intros Hall. apply Forall_cons_iff in Hall as [(fs' & Hfs' & Hsize) Hall].
    rewrite Efs in Hfs'. assert (fs' = fs) by congruence. subst fs'.
    destruct (parseFrame_returns view position isSl3 startTime fs) as [fd ->];
      try assumption.
    cbn [bind]. apply IH; [lia|lia|assumption].
Qed.

(** ** Truncation *)

Lemma bytes_at_truncated n view off size :
  0 <= off -> off + size <= n ->
  bytes_at (truncated n view) off size = bytes_at view off size.
Proof.
  intros. unfold bytes_at. now rewrite window_truncated.
Qed.

Lemma truncated_all n view : byteLength view <= n -> truncated n view = view.
Proof.
  intros H. unfold truncated. apply firstn_all2. unfold byteLength in H. lia.
Qed.

Ltac read_step n view :=
  first [ rewrite (getUint_in (truncated n view)) by lia
        | rewrite (getUint_in view) by lia
        | rewrite bytes_at_truncated by lia ];
  cbn [bind].

Lemma parseFrame_truncated n view position isSl3 startTime frameSize :
  0 <= n <= byteLength view ->
  0 <= position ->
  position + headerSize isSl3 <= n ->
  getUint16 view (position + frameSizeOffset isSl3) = Returns frameSize ->
  position + frameSize <= n ->
  parseFrame (truncated n view) position isSl3 startTime =
  parseFrame view position isSl3 startTime.
Proof.
  intros Hn Hpos Hhdr Hfs Hend.
  assert (Hlen : byteLength (truncated n view) = n)
    by (rewrite byteLength_truncated; lia).
  apply getUint_inv in Hfs as (_ & _ & Hfs).
  unfold parseFrame.
  destruct isSl3; cbn [headerSize frameSizeOffset] in *;
    unfold readHeader, getUint16, getUint32, getInt32, getFloat32;
    repeat read_step n view;
    match goal with |- context [negb ?c] => destruct (negb c) end;
    cbn [bind]; try reflexivity;
    cbn [h_min_range h_max_range h_water_depth h_x h_y h_secondsOffset
         h_frame_size h_header_size];
    match goal with |- context [orb ?a ?b] => destruct (orb a b) end;
    try reflexivity;
    rewrite <- Hfs;
    rewrite Uint8Array_new_truncated by lia;
    reflexivity.
Qed.

Lemma frame_positions_truncated n view isSl3 fuel' :
  0 <= n <= byteLength view ->
  forall fuel position,
    0 <= position ->
    byteLength view - position <= Z.of_nat fuel ->
    is_prefix (frame_positions fuel' (truncated n view) isSl3 position)
              (frame_positions fuel view isSl3 position).
Proof.
  intros Hn.
  assert (Hlen : byteLength (truncated n view) = n)
    by (rewrite byteLength_truncated; lia).
  induction fuel' as [|fuel' IH]; intros fuel position Hpos Hfuel;
    cbn [frame_positions]; rewrite Hlen;
    destruct (position <? n) eqn:Elt; cbn [negb];
    try (now eexists; rewrite app_nil_l).
  apply Z.ltb_lt in Elt.
  destruct (position + headerSize isSl3 >? n) eqn:Eh;
    [now eexists; rewrite app_nil_l|].
  apply gtb_false_iff in Eh.
  assert (Hread : getUint16 (truncated n view) (position + frameSizeOffset isSl3) =
                  getUint16 view (position + frameSizeOffset isSl3)).
  { unfold getUint16. apply getUint_truncated;
      destruct (headerSize_cases isSl3) as [(?&?&?)|(?&?&?)]; lia. }
  rewrite Hread.
  destruct (getUint16 view (position + frameSizeOffset isSl3)) as [fs| |] eqn:Efs;
    try (now eexists; rewrite app_nil_l).
  destruct (fs =? 0) eqn:E0; cbn [orb]; [now eexists; rewrite app_nil_l|].
  destruct (position + fs >? n) eqn:Eover; [now eexists; rewrite app_nil_l|].
  apply gtb_false_iff in Eover. assert (E0' := E0). apply Z.eqb_neq in E0'.
  pose proof (getUint_nonneg _ _ _ _ Efs).
  destruct fuel as [|fuel]; [lia|].
  cbn [frame_positions].
  rewrite (proj2 (Z.ltb_lt position (byteLength view))) by lia. cbn [negb].
  rewrite (proj2 (gtb_false_iff (position + headerSize isSl3) (byteLength view))) by lia.
  rewrite Efs, E0. cbn [orb].
  rewrite (proj2 (gtb_false_iff (position + fs) (byteLength view))) by lia.
  destruct (IH fuel (position + fs)) as [rest Hrest]; [lia|lia|].
  exists rest. rewrite Hrest. reflexivity.
Qed.

Lemma record_of_truncated n view isSl3 startTime fuel' position0 p :
  0 <= n <= byteLength view ->
  0 <= position0 ->
  In p (frame_positions fuel' (truncated n view) isSl3 position0) ->
  record_of (truncated n view) isSl3 startTime p = record_of view isSl3 startTime p.
Proof.
  intros Hn Hpos Hin.
  assert (Hlen : byteLength (truncated n view) = n)
    by (rewrite byteLength_truncated; lia).
  apply frame_positions_In in Hin as (Hp & Hhdr & fs & Hfs & Hfs0 & Hend); [|assumption].
  rewrite Hlen in Hhdr, Hend.
  assert (Hfs' : getUint16 view (p + frameSizeOffset isSl3) = Returns fs).
  { rewrite <- Hfs. symmetry. unfold getUint16. apply getUint_truncated;
      destruct (headerSize_cases isSl3) as [(?&?&?)|(?&?&?)]; lia. }
  unfold record_of.
  now rewrite (parseFrame_truncated n view p isSl3 startTime fs) by (assumption || lia).
Qed.

Lemma well_sized_truncated n view isSl3 p :
  0 <= n <= byteLength view -> 0 <= p -> p + headerSize isSl3 <= n ->
  well_sized view isSl3 p -> well_sized (truncated n view) isSl3 p.
Proof.
  intros Hn Hp Hhdr (fs & Hfs & Hsize). exists fs. split; [|assumption].
  rewrite <- Hfs. unfold getUint16. apply getUint_truncated;
    destruct (headerSize_cases isSl3) as [(?&?&?)|(?&?&?)]; lia.
Qed.

Lemma flat_map_agree {A B : Type} (f g : A -> list B) (l : list A) :
  (forall a, In a l -> f a = g a) -> flat_map f l = flat_map g l.
Proof.
  induction l as [|a l IH]; intros H; cbn [flat_map]; [reflexivity|].
  rewrite (H a) by now left. f_equal. apply IH. intros b Hb. apply H. now right.
Qed.

(** A buffer that holds the time-base field and whose frames cover their
    headers parses without error, and so does every cut of it that keeps
    the time-base field, to a prefix of the records. *)
Lemma parse_safe arrayBuffer fileName :
  12 + timeBaseOffset (isSl3_of fileName) <= byteLength arrayBuffer ->
  Forall (well_sized arrayBuffer (isSl3_of fileName))
         (scanned_frames arrayBuffer (isSl3_of fileName)) ->
  exists records,
    parseSonarFile arrayBuffer fileName = Returns records /\
    forall n, 12 + timeBaseOffset (isSl3_of fileName) <= n ->
      exists fewer,
        parseSonarFile (truncated n arrayBuffer) fileName = Returns fewer /\
        is_prefix fewer records.
Proof.
  intros Hlen Hall. set (isSl3 := isSl3_of fileName) in *.
  destruct (parseSonarFile_scan arrayBuffer fileName Hlen) as (st & Hst & Hscan).
  fold isSl3 in Hst, Hscan.
  pose proof (timeBaseOffset_cases isSl3) as Htb.
  assert (Hfull : parseSonarFile arrayBuffer fileName =
                  Returns (records_of arrayBuffer isSl3 st (scanned_frames arrayBuffer isSl3))).
  { rewrite Hscan. rewrite <- (while_frames_scan (List.length arrayBuffer))
      by (unfold byteLength; lia).
    rewrite while_frames_safe; [reflexivity|lia|unfold byteLength; lia|assumption]. }
  eexists. split; [exact Hfull|].
  intros n Hn.
  destruct (Z.le_gt_cases (byteLength arrayBuffer) n) as [Hbig | Hsmall].
  { rewrite truncated_all by assumption. eexists. split; [exact Hfull|].
    exists []. now rewrite app_nil_r. }
  assert (Hn' : 0 <= n <= byteLength arrayBuffer) by lia.
  assert (Hlen' : byteLength (truncated n arrayBuffer) = n)
    by (rewrite byteLength_truncated; lia).
  destruct (parseSonarFile_scan (truncated n arrayBuffer) fileName) as (st' & Hst' & Hscan');
    [fold isSl3; lia|].
  fold isSl3 in Hst', Hscan'.
  assert (st' = st).
  { unfold getUint32 in Hst', Hst.
    rewrite getUint_truncated in Hst' by lia. congruence. }
  subst st'.
  set (ps' := frame_positions (List.length (truncated n arrayBuffer))
                (truncated n arrayBuffer) isSl3 8).
  destruct (frame_positions_truncated n arrayBuffer isSl3
              (List.length (truncated n arrayBuffer)) Hn' (List.length arrayBuffer) 8)
    as [rest Hrest]; [lia|unfold byteLength; lia|].
  fold ps' in Hrest. fold (scanned_frames arrayBuffer isSl3) in Hrest.
  assert (Hall' : Forall (well_sized (truncated n arrayBuffer) isSl3) ps').
  { apply Forall_forall. intros p Hp.
    assert (Hp' := Hp).
    apply frame_positions_In in Hp' as (? & ? & _); [|lia].
    apply well_sized_truncated; try lia.
    rewrite Forall_forall in Hall. apply Hall. rewrite Hrest. apply in_or_app. now left. }
  exists (records_of (truncated n arrayBuffer) isSl3 st ps'). split.
  - rewrite Hscan'. rewrite <- (while_frames_scan (List.length (truncated n arrayBuffer)))
      by (unfold byteLength; lia).
    rewrite while_frames_safe; [reflexivity|lia|unfold byteLength; lia|assumption].
  - exists (records_of arrayBuffer isSl3 st rest).
    rewrite Hrest. unfold records_of. rewrite flat_map_app. f_equal.
    apply flat_map_agree. intros p Hp. symmetry.
    eapply record_of_truncated; [exact Hn'| |exact Hp]. lia.
Qed.

(** ** getAverage *)

Lemma skipn_nth_error {A : Type} (l : list A) (k : nat) (a : A) :
  nth_error l k = Some a -> skipn k l = a :: skipn (S k) l.
Proof.
  revert k. induction l as [|b l IH]; intros [|k]; cbn; try discriminate.
  - now intros [= ->].
  - intros H. now apply IH.
Qed.

Lemma getAverage_loop_window array index : forall remaining i s c,
  0 <= index -> 0 <= i ->
  getAverage_loop array (IInt index) remaining i (IInt s) c =
  (IInt (s + total (firstn remaining (skipn (Z.to_nat (index + i)) array))),
   c + Z.of_nat (List.length (firstn remaining (skipn (Z.to_nat (index + i)) array)))).
Proof.
  induction remaining as [|remaining IH]; intros i s c Hindex Hi;
    cbn [getAverage_loop int_add int_ltb].
  - cbn. f_equal; [f_equal|]; lia.
  - destruct (index + i <? byteLength array) eqn:E.
    + apply Z.ltb_lt in E. unfold Uint8Array_get.
      rewrite (proj2 (Z.leb_le 0 (index + i))), (proj2 (Z.ltb_lt (index + i) (byteLength array)))
        by lia.
      cbn [andb].
      destruct (nth_error array (Z.to_nat (index + i))) as [b|] eqn:Eb.
      2:{ apply nth_error_None in Eb. unfold byteLength in E. lia. }
      cbn [option_map add_element int_add].
      rewrite IH by lia.
      rewrite (skipn_nth_error _ _ _ Eb). cbn [firstn total fold_right List.length].
      replace (Z.to_nat (index + (i + 1))) with (S (Z.to_nat (index + i))) by lia.
      f_equal; [f_equal; unfold total; lia|lia].
    + apply Z.ltb_ge in E. rewrite IH by lia.
      rewrite !skipn_all2 by (unfold byteLength in E; lia).
      rewrite !firstn_nil. reflexivity.
Qed.

Lemma getAverage_loop_NaN array : forall remaining i s c,
  getAverage_loop array INaN remaining i s c = (s, c).
Proof.
  induction remaining as [|remaining IH]; intros i s c; cbn [getAverage_loop int_add int_ltb];
    [reflexivity|apply IH].
Qed.

Lemma window_length signal index k :
  0 <= index -> 0 <= k ->
  Z.of_nat (List.length (window signal index k)) =
  Z.max 0 (Z.min k (byteLength signal - index)).
Proof.
  intros Hi Hk. unfold window, byteLength.
  rewrite length_firstn, length_skipn. lia.
Qed.

Lemma getAverage_window array index k :
  0 <= index < byteLength array -> 0 < k ->
  getAverage array (IInt index) k =
  {| sum := IInt (total (window array index k));
     avg := mean (window array index k);
     count := Z.of_nat (List.length (window array index k)) |}.
Proof.
  intros Hi Hk. unfold getAverage.
  rewrite getAverage_loop_window by lia.
  rewrite Z.add_0_r. cbn [Z.add]. fold (window array index k).
  pose proof (window_length array index k ltac:(lia) ltac:(lia)) as Hlen.
  rewrite (proj2 (Z.gtb_gt _ 0)) by lia.
  reflexivity.
Qed.

(** With a NaN index no comparison [currentIndex < array.length] holds:
    nothing is summed and the average is the literal 0. *)
Lemma getAverage_NaN array k :
  getAverage array INaN k = {| sum := IInt 0; avg := num_of_Z 0; count := 0 |}.
Proof.
  unfold getAverage. rewrite getAverage_loop_NaN. reflexivity.
Qed.

Lemma byteLength_Uint8Array_new buffer off len signal :
  Uint8Array_new buffer off len = Returns signal -> byteLength signal = len.
Proof.
  unfold Uint8Array_new.
  destruct (off <? 0) eqn:E1; [discriminate|].
  destruct (len <? 0) eqn:E2; [discriminate|].
  destruct (off + len >? byteLength buffer) eqn:E3; [discriminate|].
  cbn [orb]. intros H. assert (signal = firstn (Z.to_nat len) (skipn (Z.to_nat off) buffer))
    by congruence. subst signal.
  apply Z.ltb_ge in E1, E2. apply gtb_false_iff in E3.
  unfold byteLength in *. rewrite length_firstn, length_skipn. lia.
Qed.

(** An index that passes both bounds tests of [parseFrame] is NaN or an
    integer inside the signal. *)
Lemma accepted_index bi len :
  int_ltb bi (IInt 0) = false -> int_geb bi (IInt len) = false ->
  bi = INaN \/ exists i, bi = IInt i /\ 0 <= i < len.
Proof.
  destruct bi as [|s|i]; cbn [int_ltb int_geb]; intros Hlow Hhigh.
  - now left.
  - destruct s; discriminate.
  - right. exists i. split; [reflexivity|].
    apply Z.ltb_ge in Hlow. rewrite Z.geb_leb in Hhigh. apply Z.leb_gt in Hhigh. lia.
Qed.


Local Open Scope string_scope.

(** ** The suffix of a file name *)

Lemma split_cons sep s : exists h t, split sep s = h :: t.
Proof.
  destruct s as [|c s]; cbn [split]; [eauto|].
  destruct (Ascii.eqb c sep); [eauto|].
  destruct (split sep s); eauto.
Qed.

Lemma pop_cons h t : t <> [] -> pop (h :: t) = pop t.
Proof. unfold pop. destruct t; [contradiction|reflexivity]. Qed.

Lemma split_no_dot s : has_dot s = false -> split "."%char s = [s].
Proof.
  induction s as [|c s IH]; cbn [has_dot split]; [reflexivity|].
  intros H. apply orb_false_iff in H as [Hc Hs].
  rewrite Hc, (IH Hs). reflexivity.
Qed.

Lemma split_after_dot stem ext :
  exists h t, split "."%char (stem ++ "." ++ ext) = h :: t /\ t <> [] /\
              pop t = pop (split "."%char ext).
Proof.
  induction stem as [|c stem IH]; cbn [append split].
  - cbn. destruct (split_cons "."%char ext) as (h & t & E).
    exists "", (split "."%char ext). rewrite E. repeat split. discriminate.
  - destruct IH as (h & t & E & Ht & Hpop).
    change (stem ++ String "." ext) with (stem ++ "." ++ ext). rewrite E.
    destruct (Ascii.eqb c "."%char).
    + exists "", (h :: t). repeat split; [discriminate|].
      rewrite pop_cons by assumption. assumption.
    + exists (String c h), t. repeat split; assumption.
Qed.

Lemma pop_split_suffix stem ext :
  has_dot ext = false -> pop (split "."%char (stem ++ "." ++ ext)) = ext.
Proof.
  intros H. destruct (split_after_dot stem ext) as (h & t & E & Ht & Hpop).
  rewrite E, pop_cons, Hpop by assumption.
  now rewrite split_no_dot.
Qed.

Lemma pop_split_spec s :
  has_dot (pop (split "."%char s)) = false /\
  (s = pop (split "."%char s) \/
   exists stem, s = stem ++ "." ++ pop (split "."%char s)).
Proof.
  induction s as [|c s [IHdot IH]]; cbn [split]; [cbn; auto|].
  destruct (Ascii.eqb c "."%char) eqn:Ec.
  - apply Ascii.eqb_eq in Ec. subst c.
    destruct (split_cons "."%char s) as (h & t & E).
    rewrite pop_cons by (rewrite E; discriminate).
    split; [assumption|]. right.
    destruct IH as [IH | [stem IH]].
    + exists "". cbn [append]. f_equal. exact IH.
    + exists (String "." stem). cbn [append]. f_equal. exact IH.
  - destruct (split_cons "."%char s) as (h & t & E). rewrite E in *.
    destruct t as [|h' t].
    + cbn [pop last] in *. cbn [has_dot]. rewrite Ec. cbn [orb].
      split; [assumption|].
      destruct IH as [IH | [stem IH]].
      * left. f_equal. exact IH.
      * exfalso. (* [s] has a dot, so it splits in at least two segments *)
        destruct (split_after_dot stem h) as (h0 & t0 & E0 & Ht & _).
        rewrite <- IH, E in E0. apply Ht. congruence.
    + rewrite pop_cons by discriminate.
      rewrite pop_cons in IHdot, IH by discriminate.
      split; [assumption|]. right.
      destruct IH as [IH | [stem IH]].
      * exfalso. (* s has at least two segments, so it has a dot *)
        rewrite split_no_dot in E by (rewrite IH; assumption). discriminate.
      * exists (String c stem). cbn [append]. f_equal. exact IH.
Qed.

Lemma lower_sl3_no_dot ext : toLowerCase ext = "sl3" -> has_dot ext = false.
Proof.
  destruct ext as [|a [|b [|c [|d ext]]]]; cbn [toLowerCase]; try discriminate.
  intros H.
  assert (Ha : lower_char a = "s"%char) by congruence.
  assert (Hb : lower_char b = "l"%char) by congruence.
  assert (Hc : lower_char c = "3"%char) by congruence.
  cbn [has_dot].
  destruct (Ascii.eqb a ".") eqn:Ea;
    [apply Ascii.eqb_eq in Ea; subst a; discriminate|].
  destruct (Ascii.eqb b ".") eqn:Eb;
    [apply Ascii.eqb_eq in Eb; subst b; discriminate|].
  destruct (Ascii.eqb c ".") eqn:Ec;
    [apply Ascii.eqb_eq in Ec; subst c; discriminate|].
  reflexivity.
Qed.

Lemma isSl3_of_suffix fileName :
  isSl3_of fileName = true <->
  exists ext, toLowerCase ext = "sl3" /\
              (fileName = ext \/ exists stem, fileName = stem ++ "." ++ ext).
Proof.
  unfold isSl3_of, extension. rewrite String.eqb_eq. split.
  - intros H. exists (pop (split "."%char fileName)). split; [assumption|].
    apply pop_split_spec.
  - intros (ext & Hext & [-> | [stem ->]]).
    + now rewrite split_no_dot by (now apply lower_sl3_no_dot).
    + now rewrite pop_split_suffix by (now apply lower_sl3_no_dot).
Qed.

Local Close Scope string_scope.

(** ** Where the returned records come from *)

Lemma parseSonarFile_Returns arrayBuffer fileName records :
  parseSonarFile arrayBuffer fileName = Returns records ->
  records = [] \/
  exists startTime,
    getUint32 arrayBuffer (8 + timeBaseOffset (isSl3_of fileName)) = Returns startTime /\
    while_frames (List.length arrayBuffer) arrayBuffer (isSl3_of fileName)
      startTime 8 [] = Returns records.
Proof.
  unfold parseSonarFile, getInt16, getUint32.
  fold (timeBaseOffset (isSl3_of fileName)).
  destruct (getUint_cases 2 arrayBuffer 0) as [[u0 E0] | E0]; rewrite E0;
    cbn [bind]; [|discriminate].
  destruct (getUint_cases 2 arrayBuffer 2) as [[u2 E2] | E2]; rewrite E2;
    cbn [bind]; [|discriminate].
  destruct (8 >=? byteLength arrayBuffer); [intros H; left; congruence|].
  destruct (getUint_cases 4 arrayBuffer (8 + timeBaseOffset (isSl3_of fileName)))
    as [[st E] | E]; rewrite E; cbn [bind]; [|discriminate].
  intros H. right. exists st. split; [reflexivity|assumption].
Qed.

Lemma push_frame_In frameData r :
  In r (push_frame [] frameData) ->
  frameData = Some r /\ num_gtb (water_depth r) (num_of_Z 0) = true.
Proof.
  unfold push_frame. destruct frameData as [f|]; [|contradiction].
  destruct (num_gtb (water_depth f) (num_of_Z 0)) eqn:E; [|contradiction].
  cbn [app In]. intros [<- | []]. split; [reflexivity|assumption].
Qed.

Lemma returned_record_origin arrayBuffer fileName records r :
  parseSonarFile arrayBuffer fileName = Returns records ->
  In r records ->
  exists startTime position,
    getUint32 arrayBuffer (8 + timeBaseOffset (isSl3_of fileName)) = Returns startTime /\
    In position (scanned_frames arrayBuffer (isSl3_of fileName)) /\
    parseFrame arrayBuffer position (isSl3_of fileName) startTime = Returns (Some r) /\
    num_gtb (water_depth r) (num_of_Z 0) = true.
Proof.
  intros H Hr. apply parseSonarFile_Returns in H as [-> | (st & Hst & H)];
    [contradiction|].
  apply while_frames_records in H. rewrite app_nil_l in H. subst records.
  unfold records_of in Hr. apply in_flat_map in Hr as (p & Hp & Hr).
  unfold record_of in Hr.
  destruct (parseFrame arrayBuffer p (isSl3_of fileName) st) as [fd| |] eqn:Ep;
    try contradiction.
  apply push_frame_In in Hr as [-> Hdepth].
  exists st, p. repeat split; assumption.
Qed.

(** The returned sequence is, frame by frame in scan order, the record of
    each scanned frame that has one: a frame without a record changes
    nothing for the others. *)
Lemma returned_records_per_frame arrayBuffer fileName records :
  parseSonarFile arrayBuffer fileName = Returns records ->
  records = [] \/
  exists startTime,
    getUint32 arrayBuffer (8 + timeBaseOffset (isSl3_of fileName)) = Returns startTime /\
    records = records_of arrayBuffer (isSl3_of fileName) startTime
                (scanned_frames arrayBuffer (isSl3_of fileName)).
Proof.
  intros H. apply parseSonarFile_Returns in H as [-> | (st & Hst & H)];
    [now left|right].
  exists st. split; [assumption|].
  apply while_frames_records in H. now rewrite app_nil_l in H.
Qed.

(** The invariants every returned record does satisfy: positive depth,
    non-zero coordinates, and a range that is not known to be degenerate
    ([max_range <= min_range] is false, which a NaN range also makes). *)
Lemma returned_record_invariants arrayBuffer fileName records r :
  parseSonarFile arrayBuffer fileName = Returns records ->
  In r records ->
  num_gtb (water_depth r) (num_of_Z 0) = true /\ x r <> 0 /\ y r <> 0 /\
  num_leb (max_range r) (min_range r) = false.
Proof.
  intros H Hr.
  destruct (returned_record_origin _ _ _ _ H Hr) as (st & p & _ & _ & Hp & Hdepth).
  apply parseFrame_Some in Hp as [signal D].
  repeat split; [assumption|apply D|apply D|apply D].
Qed.

(** A frame [parseFrame] rejects leaves the accumulated records as they
    are, and the scan goes on at [position + frameSize]. *)
Lemma rejected_frame_is_skipped view isSl3 startTime position data frameSize :
  position + headerSize isSl3 <= byteLength view ->
  getUint16 view (position + frameSizeOffset isSl3) = Returns frameSize ->
  0 < frameSize -> position + frameSize <= byteLength view ->
  parseFrame view position isSl3 startTime = Returns None ->
  scan view isSl3 startTime position data =
  scan view isSl3 startTime (position + frameSize) data.
Proof.
  intros Hhdr Hfs H0 Hend Hp. rewrite scan_unfold at 1.
  rewrite (proj2 (Z.ltb_lt position (byteLength view))) by (destruct isSl3; cbn in *; lia).
  cbn [negb].
  rewrite (proj2 (gtb_false_iff _ _)) by lia.
  rewrite Hfs. cbn [bind].
  rewrite (proj2 (Z.eqb_neq frameSize 0)) by lia. cbn [orb].
  rewrite (proj2 (gtb_false_iff _ _)) by lia.
  rewrite Hp. reflexivity.
Qed.

(** * The claims *)

(** ** C1: safety under truncation *)

Lemma readable_length_cases isSl3 n :
  readable_length isSl3 n ->
  4 <= n <= 8 \/ (12 + timeBaseOffset isSl3 <= n /\ 8 < n).
Proof.
  unfold readable_length. pose proof (timeBaseOffset_cases isSl3). lia.
Qed.

(** C1 (amended).  For either format, take a buffer whose length is
    readable (4 to 8 bytes, or at least 12 + the time-base offset: 52
    bytes for .sl3, 72 otherwise) and in which every frame the scan reaches
    declares a frame size of at least the header size.  Then
    [parseSonarFile] returns a record sequence: no read leaves the buffer,
    nothing throws.  Cut after any readable number [n] of bytes, the buffer
    again parses to a record sequence, and that sequence is a prefix of the
    original one: truncation only loses records. *)
Theorem parse_safe_under_truncation arrayBuffer fileName :
  readable_length (isSl3_of fileName) (byteLength arrayBuffer) ->
  Forall (well_sized arrayBuffer (isSl3_of fileName))
         (scanned_frames arrayBuffer (isSl3_of fileName)) ->
  exists records,
    parseSonarFile arrayBuffer fileName = Returns records /\
    forall n, readable_length (isSl3_of fileName) n ->
      exists fewer,
        parseSonarFile (truncated n arrayBuffer) fileName = Returns fewer /\
        is_prefix fewer records.
Proof.
  intros Hlen Hall.
  assert (Hcut : forall n records,
             4 <= n <= 8 ->
             parseSonarFile arrayBuffer fileName = Returns records ->
             exists fewer,
               parseSonarFile (truncated n arrayBuffer) fileName = Returns fewer /\
               is_prefix fewer records).
  { intros n records Hn Hfull.
    destruct (Z.le_gt_cases (byteLength arrayBuffer) n) as [Hbig | Hsmall].
    - rewrite truncated_all by assumption. exists records. split; [assumption|].
      exists []. now rewrite app_nil_r.
    - exists []. split; [|now exists records].
      apply parseSonarFile_4_to_8. rewrite byteLength_truncated; lia. }
  apply readable_length_cases in Hlen as [Hshort | [Hlong _]].
  - exists []. pose proof (parseSonarFile_4_to_8 arrayBuffer fileName Hshort) as Hfull.
    split; [assumption|]. intros n Hn.
    apply readable_length_cases in Hn as [Hn | [Hn Hn8]]; [now apply Hcut|].
    rewrite truncated_all by lia. exists []. split; [assumption|now exists []].
  - destruct (parse_safe arrayBuffer fileName Hlong Hall) as (records & Hfull & Htrunc).
    exists records. split; [assumption|]. intros n Hn.
    apply readable_length_cases in Hn as [Hn | [Hn _]]; [now apply Hcut|now apply Htrunc].
Qed.

Lemma parse_safe_under_truncation_witness :
  exists records,
    parseSonarFile Samples.two_records "log.sl2"%string = Returns records /\
    forall n, readable_length false n ->
      exists fewer,
        parseSonarFile (truncated n Samples.two_records) "log.sl2"%string = Returns fewer /\
        is_prefix fewer records.
Proof.
  apply (parse_safe_under_truncation Samples.two_records "log.sl2"%string).
  - right. vm_compute. discriminate.
  - replace (scanned_frames Samples.two_records (isSl3_of "log.sl2"%string))
      with [8; 162] by (vm_compute; reflexivity).
    repeat constructor; exists 154;
      (split; [vm_compute; reflexivity | vm_compute; discriminate]).
Defined.

(** C1, as stated, fails: the one-frame buffer parses to one record; cut
    after 9 bytes it throws RangeError (the time-base read at offset 68
    leaves the buffer), and cut after 3 bytes it throws at the second read
    of the file header. *)
Lemma truncation_can_throw :
  parseSonarFile Samples.one_frame "log.sl2"%string = Returns [Samples.one_frame_record] /\
  parseSonarFile (truncated 9 Samples.one_frame) "log.sl2"%string = Throws RangeError /\
  parseSonarFile (truncated 3 Samples.one_frame) "log.sl2"%string = Throws RangeError.
Proof. repeat split; vm_compute; reflexivity. Qed.

(** ** C2: record invariants *)

(** C2 (the code at the failing input).  A primary-channel frame whose
    [min_range] field holds a NaN passes [max_range <= min_range] (false on
    NaN) and both bounds tests on the bottom index (NaN, so false again):
    its record is returned although [max_range > min_range] is false and
    the bottom index is not in [0, signal_length). *)
Theorem nan_range_record_is_returned :
  getFloat32 Samples.nan_range (8 + 40) = Returns S754_nan /\
  exists r,
    parseSonarFile Samples.nan_range "log.sl2"%string = Returns [r] /\
    num_gtb (max_range r) (min_range r) = false /\
    bottom_index_of (frame_size r - header_size r)
      (min_range r) (max_range r) (water_depth r) = INaN /\
    bottom_density_1 r = None.
Proof.
  split; [vm_compute; reflexivity|].
  eexists. split; [vm_compute; reflexivity|].
  repeat split; vm_compute; reflexivity.
Qed.

(** ** C3: short buffers *)

(** C3 (amended).  [parseSonarFile] fails, with RangeError, on every buffer
    of fewer than 4 bytes and on every buffer of 9 bytes or more that ends
    before the time-base field does (fewer than 12 + the time-base offset).
    On a buffer of 4 to 8 bytes, and on a buffer that holds the time-base
    field but fewer than [headerSize] bytes after the 8-byte file header,
    it returns the empty sequence. *)
Theorem short_buffer_outcomes arrayBuffer fileName :
  (byteLength arrayBuffer < 4 \/
   9 <= byteLength arrayBuffer < 12 + timeBaseOffset (isSl3_of fileName) ->
   parseSonarFile arrayBuffer fileName = Throws RangeError) /\
  (4 <= byteLength arrayBuffer <= 8 \/
   12 + timeBaseOffset (isSl3_of fileName) <= byteLength arrayBuffer
     < 8 + headerSize (isSl3_of fileName) ->
   parseSonarFile arrayBuffer fileName = Returns []).
Proof.
  split; intros [H | H].
  - now apply parseSonarFile_below_4.
  - now apply parseSonarFile_no_time_base.
  - now apply parseSonarFile_4_to_8.
  - now apply parseSonarFile_no_frame_header.
Qed.

Lemma short_buffer_outcomes_witness :
  parseSonarFile (Samples.zeros 3) "log.sl2"%string = Throws RangeError /\
  parseSonarFile (Samples.zeros 100) "log.sl2"%string = Returns [].
Proof.
  split.
  - apply (proj1 (short_buffer_outcomes (Samples.zeros 3) "log.sl2"%string)).
    left. vm_compute. reflexivity.
  - apply (proj2 (short_buffer_outcomes (Samples.zeros 100) "log.sl2"%string)).
    right. split; vm_compute; [discriminate|reflexivity].
Defined.

(** C3, as stated, fails: a 4-byte buffer (shorter than the file header)
    and the 8-byte buffer (no byte of a frame header) both parse to the
    empty sequence instead of failing. *)
Lemma short_buffers_can_return_empty :
  byteLength (Samples.zeros 4) = 4 /\
  parseSonarFile (Samples.zeros 4) "log.sl2"%string = Returns [] /\
  byteLength Samples.header_only = 8 /\
  parseSonarFile Samples.header_only "log.sl2"%string = Returns [].
Proof. repeat split; vm_compute; reflexivity. Qed.

(** ** C4: the time-base field out of reach *)

(** C4 (amended).  On a buffer of at least 8 bytes that is too short for
    the 32-bit time-base field (at offset 8 + 40 for .sl3, 8 + 60
    otherwise), the parse returns the empty sequence when the buffer has
    exactly 8 bytes; with 9 bytes or more the read of the field is out of
    bounds and the parse throws RangeError. *)
Theorem unreadable_time_base arrayBuffer fileName :
  8 <= byteLength arrayBuffer < 12 + timeBaseOffset (isSl3_of fileName) ->
  getUint32 arrayBuffer (8 + timeBaseOffset (isSl3_of fileName)) = Throws RangeError /\
  (byteLength arrayBuffer = 8 -> parseSonarFile arrayBuffer fileName = Returns []) /\
  (9 <= byteLength arrayBuffer -> parseSonarFile arrayBuffer fileName = Throws RangeError).
Proof.
  intros H. split; [unfold getUint32; apply getUint_out; lia|]. split; intros H'.
  - apply parseSonarFile_4_to_8. lia.
  - apply parseSonarFile_no_time_base. lia.
Qed.

Lemma unreadable_time_base_witness :
  getUint32 Samples.header_only (8 + 60) = Throws RangeError /\
  (byteLength Samples.header_only = 8 ->
   parseSonarFile Samples.header_only "log.sl2"%string = Returns []) /\
  (9 <= byteLength Samples.header_only ->
   parseSonarFile Samples.header_only "log.sl2"%string = Throws RangeError).
Proof.
  apply (unreadable_time_base Samples.header_only "log.sl2"%string).
  split; vm_compute; [discriminate|reflexivity].
Defined.

(** C4, as stated, fails: a 9-byte buffer is at least 8 bytes long and too
    short for the time-base field, and parsing it throws. *)
Lemma nine_bytes_throw :
  byteLength Samples.nine_bytes = 9 /\
  parseSonarFile Samples.nine_bytes "log.sl2"%string = Throws RangeError /\
  parseSonarFile Samples.nine_bytes "log.sl3"%string = Throws RangeError.
Proof. repeat split; vm_compute; reflexivity. Qed.

(** ** C5: one step of the frame scan *)

(** The scan is the loop of [parseSonarFile], entered at byte 8 with no
    record.  At a cursor [position] with records [data] it returns [data]
    unchanged, without error, when fewer than [headerSize] bytes remain,
    when the 16-bit frame size read at the format's offset is 0, and when
    [position + frameSize] passes the end of the buffer; otherwise it
    calls [parseFrame] on the frame at [position] and, when that returns,
    continues at [position + frameSize]; when it throws, so does the scan.
    The scan never runs out of fuel: the loop terminates. *)
Lemma frame_scan_step view isSl3 startTime position data :
  0 <= position ->
  (byteLength view - position < headerSize isSl3 ->
   scan view isSl3 startTime position data = Returns data) /\
  (headerSize isSl3 <= byteLength view - position ->
   exists frameSize,
     getUint16 view (position + frameSizeOffset isSl3) = Returns frameSize /\
     (frameSize = 0 \/ position + frameSize > byteLength view ->
      scan view isSl3 startTime position data = Returns data) /\
     (frameSize <> 0 /\ position + frameSize <= byteLength view ->
      scan view isSl3 startTime position data =
      frameData <- parseFrame view position isSl3 startTime ;;
      scan view isSl3 startTime (position + frameSize)
        (push_frame data frameData))) /\
  (forall fileName,
     isSl3_of fileName = isSl3 ->
     getUint32 view (8 + timeBaseOffset isSl3) = Returns startTime ->
     parseSonarFile view fileName = scan view isSl3 startTime 8 []) /\
  scan view isSl3 startTime position data <> OutOfFuel.
Proof.
  intros Hpos. split; [apply scan_no_room|]. split; [|split; [|apply scan_terminates]].
  - intros Hroom.
    assert (Hin : exists fs, getUint16 view (position + frameSizeOffset isSl3) = Returns fs).
    { unfold getUint16. rewrite getUint_in; [eauto| |];
        destruct (headerSize_cases isSl3) as [(?&?&?)|(?&?&?)]; lia. }
    destruct Hin as [fs Hfs]. exists fs. split; [assumption|].
    assert (Hlt : (position <? byteLength view) = true)
      by (apply Z.ltb_lt; destruct (headerSize_cases isSl3) as [(?&?&?)|(?&?&?)]; lia).
    assert (Hhdr : (position + headerSize isSl3 >? byteLength view) = false)
      by (apply gtb_false_iff; lia).
    split; intros H; rewrite scan_unfold, Hlt, Hhdr, Hfs; cbn [negb bind].
    + destruct H as [-> | H]; [reflexivity|].
      rewrite (proj2 (Z.gtb_gt _ _)) by lia. now rewrite orb_true_r.
    + destruct H as [H0 Hend].
      rewrite (proj2 (Z.eqb_neq fs 0)) by assumption.
      now rewrite (proj2 (gtb_false_iff _ _)) by lia.
  - intros fileName <- Hst.
    assert (Hlen : 12 + timeBaseOffset (isSl3_of fileName) <= byteLength view).
    { unfold getUint32 in Hst. apply getUint_inv in Hst. lia. }
    destruct (parseSonarFile_scan view fileName Hlen) as (st & Hst' & ->).
    congruence.
Qed.

(** C5 (the code at the failing input).  At byte 8 of [short_frame] a
    whole header is in the buffer, the frame size read at offset 28 is 100,
    not 0, and [8 + 100] is inside the buffer: none of the stop conditions
    holds.  The scan does not decode the frame and move to byte 108, where
    it would end with no record: [parseFrame] throws RangeError on the
    frame (its declared size is below the 144-byte header), and so do the
    scan and the parse. *)
Theorem accepted_frame_aborts_scan :
  headerSize false <= byteLength Samples.short_frame - 8 /\
  getUint16 Samples.short_frame (8 + frameSizeOffset false) = Returns 100 /\
  8 + 100 <= byteLength Samples.short_frame /\
  parseFrame Samples.short_frame 8 false 1700000000 = Throws RangeError /\
  scan Samples.short_frame false 1700000000 8 [] = Throws RangeError /\
  scan Samples.short_frame false 1700000000 (8 + 100) [] = Returns [] /\
  parseSonarFile Samples.short_frame "log.sl2"%string = Throws RangeError.
Proof.
  split; [vm_compute; discriminate|].
  split; [vm_compute; reflexivity|].
  split; [vm_compute; discriminate|].
  repeat split; vm_compute; reflexivity.
Qed.

(** ** C6: content-level rejection *)

(** C6 (the code at the failing input).  The frame at byte 8 of
    [short_frame] is on the primary channel, has non-zero coordinates and
    equal ranges ([max_range <= min_range]), and declares 100 bytes, fewer
    than its 144-byte header: [parseFrame] throws RangeError on it when it
    builds the signal view, before the range test, and the whole parse
    throws instead of skipping the frame.  The same frame declaring 144
    bytes ([equal_ranges]) is rejected by the range test and skipped. *)
Theorem undersized_frame_aborts_scan :
  getUint16 Samples.short_frame (8 + 32) = Returns 0 /\
  getInt32 Samples.short_frame (8 + 108) = Returns 1000000 /\
  getInt32 Samples.short_frame (8 + 112) = Returns 2000000 /\
  getFloat32 Samples.short_frame (8 + 40) = Returns (S754_zero false) /\
  getFloat32 Samples.short_frame (8 + 44) = Returns (S754_zero false) /\
  num_leb (num_mul (S754_zero false) FEET_TO_METERS)
          (num_mul (S754_zero false) FEET_TO_METERS) = true /\
  getUint16 Samples.short_frame (8 + 28) = Returns 100 /\
  Uint8Array_new Samples.short_frame (8 + 144) (100 - 144) = Throws RangeError /\
  parseFrame Samples.short_frame 8 false 1700000000 = Throws RangeError /\
  parseSonarFile Samples.short_frame "log.sl2"%string = Throws RangeError /\
  parseFrame Samples.equal_ranges 8 false 1700000000 = Returns None /\
  parseSonarFile Samples.equal_ranges "log.sl2"%string = Returns [].
Proof. repeat split; vm_compute; reflexivity. Qed.

(** ** C7: timestamps *)

(** C7.  Every record [parseSonarFile] returns was decoded from a frame of
    the scan, and its timestamp is the date of [timeBase + millis / 1000]
    seconds, where [timeBase] is the 32-bit unsigned value at offset
    8 + 40 (.sl3) or 8 + 60 of the buffer, inside the first frame whatever
    becomes of that frame, and [millis] is the 32-bit unsigned value at
    offset 124 (.sl3) or 140 of the record's own frame. *)
Theorem timestamp_from_time_base arrayBuffer fileName records r :
  parseSonarFile arrayBuffer fileName = Returns records ->
  In r records ->
  exists timeBase position millis,
    getUint32 arrayBuffer (8 + timeBaseOffset (isSl3_of fileName)) = Returns timeBase /\
    In position (scanned_frames arrayBuffer (isSl3_of fileName)) /\
    parseFrame arrayBuffer position (isSl3_of fileName) timeBase = Returns (Some r) /\
    getUint32 arrayBuffer (position + millisOffset (isSl3_of fileName)) = Returns millis /\
    timestamp r = timestamp_of timeBase millis.
Proof.
  intros H Hr.
  destruct (returned_record_origin _ _ _ _ H Hr) as (st & p & Hst & Hp & Hframe & _).
  destruct (parseFrame_Some _ _ _ _ _ Hframe) as [signal D].
  destruct (dec_time _ _ _ _ _ _ D) as (ms & Hms & Hts).
  exists st, p, ms. repeat split; assumption.
Qed.

Lemma timestamp_from_time_base_witness :
  exists timeBase position millis,
    getUint32 Samples.two_frames (8 + 60) = Returns timeBase /\
    In position (scanned_frames Samples.two_frames false) /\
    parseFrame Samples.two_frames position false timeBase
      = Returns (Some Samples.two_frames_record) /\
    getUint32 Samples.two_frames (position + 140) = Returns millis /\
    timestamp Samples.two_frames_record = timestamp_of timeBase millis.
Proof.
  apply (timestamp_from_time_base Samples.two_frames "log.sl2"%string [Samples.two_frames_record]).
  - vm_compute. reflexivity.
  - left. reflexivity.
Defined.

(** ** C8: bottom index and densities *)

(** For a frame [parseFrame] returns, let [signal] be the window of
    the buffer from [position + header_size] of length
    [L = frame_size - header_size].  The ranges and the depth of the record
    are the fields read in feet times 0.3048, and on them the bottom index
    is [floor (L / (max_range - min_range) * water_depth)]
    ([bottom_index_of]).  The 1-sample density is [signal[bottom_index]];
    the index is NaN or an integer [i] with [0 <= i < L], and in the
    latter case the 10- and 100-sample densities are the sums of the
    windows [signal[i .. i + k)] clipped at the end of the signal, divided
    by the number of samples in the window, [min k (L - i)]. *)
Lemma bottom_index_and_densities view position isSl3 startTime f :
  parseFrame view position isSl3 startTime = Returns (Some f) ->
  exists signal,
    Uint8Array_new view (position + header_size f) (frame_size f - header_size f)
      = Returns signal /\
    (exists feet, getFloat32 view (position + minRangeOffset isSl3) = Returns feet
                  /\ min_range f = num_mul feet FEET_TO_METERS) /\
    (exists feet, getFloat32 view (position + maxRangeOffset isSl3) = Returns feet
                  /\ max_range f = num_mul feet FEET_TO_METERS) /\
    (exists feet, getFloat32 view (position + depthOffset isSl3) = Returns feet
                  /\ water_depth f = num_mul feet FEET_TO_METERS) /\
    sampled f signal.
Proof.
  intros H. apply parseFrame_Some in H as [signal D]. exists signal.
  pose proof (byteLength_Uint8Array_new _ _ _ _ (dec_signal _ _ _ _ _ _ D)) as HL.
  split; [exact (dec_signal _ _ _ _ _ _ D)|].
  split; [exact (dec_min _ _ _ _ _ _ D)|].
  split; [exact (dec_max _ _ _ _ _ _ D)|].
  split; [exact (dec_depth _ _ _ _ _ _ D)|].
  pose proof (dec_index_low _ _ _ _ _ _ D) as Hlow.
  pose proof (dec_index_high _ _ _ _ _ _ D) as Hhigh.
  pose proof (dec_density_1 _ _ _ _ _ _ D) as H1.
  pose proof (dec_density_10 _ _ _ _ _ _ D) as H10.
  pose proof (dec_density_100 _ _ _ _ _ _ D) as H100.
  rewrite HL in Hlow, Hhigh, H1, H10, H100.
  constructor; try assumption.
  - eapply accepted_index; eassumption.
  - intros i Hi. rewrite Hi in *.
    destruct (accepted_index _ _ Hlow Hhigh) as [? | (j & Hj & Hrange)]; [discriminate|].
    assert (j = i) by congruence. subst j.
    rewrite getAverage_window in H10, H100 by lia. cbn [avg] in H10, H100.
    rewrite !window_length by lia. rewrite HL.
    split.
    { rewrite H1. unfold Uint8Array_get.
      rewrite (proj2 (Z.leb_le 0 i)), (proj2 (Z.ltb_lt i (byteLength signal))) by lia.
      reflexivity. }
    repeat split; try assumption; lia.
  - intros Hnan. rewrite Hnan in H1, H10, H100.
    rewrite getAverage_NaN in H10, H100. cbn [avg] in H10, H100.
    repeat split; assumption.
Qed.

(** With the bottom at three samples from the end of the signal, the
    10-sample window holds three samples. *)
Lemma three_samples_from_the_end f signal i :
  sampled f signal ->
  bottom_index_of (frame_size f - header_size f)
    (min_range f) (max_range f) (water_depth f) = IInt i ->
  i = frame_size f - header_size f - 3 ->
  List.length (window signal i 10) = 3%nat /\
  bottom_density_10 f = mean (window signal i 10).
Proof.
  intros S Hi ->. destruct (smp_at_index _ _ S _ Hi) as (_ & H10 & Hlen & _).
  split; [lia|assumption].
Qed.

(** C8 (the code at the failing input).  The frame of [nan_range] is
    accepted with a NaN bottom index: no sample of its 10-byte signal is
    the bottom sample, [bottom_density_1] is [undefined], [getAverage]
    reads no sample (sum 0, count 0), and the 10- and 100-sample densities
    are the literal 0, not the mean of a window of the signal. *)
Theorem nan_index_densities :
  exists r signal,
    parseSonarFile Samples.nan_range "log.sl2"%string = Returns [r] /\
    Uint8Array_new Samples.nan_range (8 + header_size r)
      (frame_size r - header_size r) = Returns signal /\
    byteLength signal = 10 /\
    bottom_index_of (byteLength signal)
      (min_range r) (max_range r) (water_depth r) = INaN /\
    bottom_density_1 r = None /\
    getAverage signal INaN 10
      = {| sum := IInt 0; avg := num_of_Z 0; count := 0 |} /\
    getAverage signal INaN 100
      = {| sum := IInt 0; avg := num_of_Z 0; count := 0 |} /\
    bottom_density_10 r = num_of_Z 0 /\
    bottom_density_100 r = num_of_Z 0.
Proof.
  eexists. eexists.
  split; [vm_compute; reflexivity|].
  split; [vm_compute; reflexivity|].
  repeat split; vm_compute; reflexivity.
Qed.

(** The end-to-end scenario of the specification: one primary-channel
    .sl2 frame decodes to one record, 5 s after the time base. *)
Example one_frame_decodes :
  parseSonarFile Samples.one_frame "log.sl2"%string = Returns [Samples.one_frame_record] /\
  timestamp Samples.one_frame_record = Some (1700000000 * 1000 + 5000).
Proof. split; vm_compute; reflexivity. Qed.

(** * Further properties of the code *)

(** ** The chain of frame positions *)

Lemma frame_positions_layout fuel view isSl3 : forall position,
  0 <= position ->
  byteLength view - position <= Z.of_nat fuel ->
  let frames := frame_positions fuel view isSl3 position in
  let stop := cursor_after view isSl3 position frames in
  chained view isSl3 position frames /\
  position <= stop /\
  sum_Z (map (declared_size view isSl3) frames) = stop - position /\
  (frames <> [] -> stop <= byteLength view) /\
  (byteLength view - stop < headerSize isSl3 \/
   declared_size view isSl3 stop = 0 \/
   stop + declared_size view isSl3 stop > byteLength view).
Proof.
  induction fuel as [|fuel IH]; intros position Hpos Hfuel; cbn zeta;
    cbn [frame_positions].
  - destruct (position <? byteLength view) eqn:E; cbn [negb];
      [apply Z.ltb_lt in E; lia|].
    apply Z.ltb_ge in E. cbn. repeat split; try lia; try congruence.
    left. destruct isSl3; cbn; lia.
  - destruct (position <? byteLength view) eqn:E; cbn [negb].
    2:{ apply Z.ltb_ge in E. cbn. repeat split; try lia; try congruence.
        left. destruct isSl3; cbn; lia. }
    destruct (position + headerSize isSl3 >? byteLength view) eqn:Eh.
    { apply Z.gtb_gt in Eh. cbn. repeat split; try lia; try congruence. }
    apply gtb_false_iff in Eh.
    destruct (getUint16 view (position + frameSizeOffset isSl3)) as [fs| |] eqn:Efs.
    2:{ unfold getUint16 in Efs. destruct (headerSize_cases isSl3) as [(?&?&?)|(?&?&?)];
        rewrite getUint_in in Efs by lia; discriminate. }
    2:{ unfold getUint16, getUint in Efs. destruct (in_view _ _ _); discriminate. }
    assert (Hd : declared_size view isSl3 position = fs)
      by (unfold declared_size; now rewrite Efs).
    pose proof (getUint_nonneg _ _ _ _ Efs) as Hfs0.
    destruct (fs =? 0) eqn:E0; cbn [orb].
    { apply Z.eqb_eq in E0. cbn. repeat split; try lia; try congruence. }
    apply Z.eqb_neq in E0.
    destruct (position + fs >? byteLength view) eqn:Eover.
    { apply Z.gtb_gt in Eover. cbn. repeat split; try lia; try congruence. }
    apply gtb_false_iff in Eover.
    cbn [chained cursor_after map sum_Z fold_right]. rewrite Hd.
    destruct (IH (position + fs) ltac:(lia) ltac:(lia)) as (Hc & Hle & Hsum & Hin & Hstop).
    fold (sum_Z (map (declared_size view isSl3)
                     (frame_positions fuel view isSl3 (position + fs)))).
    repeat split; try assumption; try lia.
    intros _.
    destruct (frame_positions fuel view isSl3 (position + fs)) eqn:Efp.
    + cbn [cursor_after]. lia.
    + apply Hin. discriminate.
Qed.

(** ** Ranges of the integers read from the buffer *)

Lemma lor_shiftl_bytes b r :
  0 <= b < 256 -> 0 <= r -> Z.lor b (Z.shiftl r 8) = b + 256 * r.
Proof.
  intros Hb Hr. rewrite Z.shiftl_mul_pow2 by lia.
  assert (Hland : Z.land b (r * 2 ^ 8) = 0).
  { apply Z.bits_inj'. intros n Hn. rewrite Z.land_spec, Z.bits_0.
    destruct (Z.lt_ge_cases n 8).
    - rewrite (Z.mul_pow2_bits_low r 8 n) by lia. apply andb_false_r.
    - rewrite (Z.bits_above_log2 b n); [reflexivity|lia|].
      destruct (Z.eq_dec b 0) as [->|]; [cbn; lia|].
      apply Z.lt_le_trans with 8; [|assumption].
      apply Z.log2_lt_pow2; lia. }
  rewrite <- Z.lxor_lor, <- Z.add_nocarry_lxor by assumption. lia.
Qed.

Lemma le_value_range bs :
  Forall (fun b => 0 <= b < 256) bs ->
  0 <= le_value bs < 256 ^ Z.of_nat (List.length bs).
Proof.
  induction 1 as [|b bs Hb _ IH]; cbn [le_value List.length]; [cbn; lia|].
  rewrite lor_shiftl_bytes by lia.
  rewrite Nat2Z.inj_succ, Z.pow_succ_r by lia. lia.
Qed.

Lemma getUint_range view size off u :
  0 <= size ->
  getUint size view off = Returns u -> 0 <= u < 256 ^ size.
Proof.
  intros Hsize H. apply getUint_inv in H as (Hoff & Hend & ->).
  assert (Hlen : Z.of_nat (List.length (bytes_at view off size)) = size).
  { unfold bytes_at. rewrite length_map, length_firstn, length_skipn.
    unfold byteLength in Hend. lia. }
  pose proof (le_value_range (bytes_at view off size)) as H.
  rewrite Hlen in H. apply H.
  unfold bytes_at. apply Forall_forall. intros z Hz.
  apply in_map_iff in Hz as (b & <- & _). apply byte_val_range.
Qed.

Lemma to_signed_32_range u :
  0 <= u < 256 ^ 4 -> - 2 ^ 31 <= to_signed 32 u < 2 ^ 31.
Proof.
  intros Hu. unfold to_signed. change (32 - 1) with 31.
  change (Z.shiftl 1 32) with (2 ^ 32). change (256 ^ 4) with (2 ^ 32) in Hu.
  destruct (Z.testbit u 31) eqn:E.
  - apply Z.testbit_true in E; [|lia].
    assert (2 ^ 31 <= u); [|lia].
    destruct (Z.lt_ge_cases u (2 ^ 31)) as [Hlt|]; [|assumption].
    rewrite Z.div_small in E by lia. discriminate.
  - apply Z.testbit_false in E; [|lia].
    assert (u < 2 ^ 31); [|lia].
    destruct (Z.lt_ge_cases u (2 ^ 31)) as [|Hge]; [assumption|].
    assert (u / 2 ^ 31 = 1) by (symmetry; apply Z.div_unique with (u - 2 ^ 31); lia).
    rewrite H in E. discriminate.
Qed.

Lemma getInt32_range view off v :
  getInt32 view off = Returns v -> - 2 ^ 31 <= v < 2 ^ 31.
Proof.
  unfold getInt32.
  destruct (getUint 4 view off) as [u| |] eqn:E; cbn [bind]; try discriminate.
  intros H. assert (v = to_signed 32 u) by congruence. subst v.
  apply to_signed_32_range. apply (getUint_range view 4 off); [lia|assumption].
Qed.

Lemma Uint8Array_get_range array index b :
  Uint8Array_get array index = Some b -> 0 <= b < 256.
Proof.
  unfold Uint8Array_get. destruct index as [| |i]; try discriminate.
  destruct (_ && _); [|discriminate].
  destruct (nth_error array (Z.to_nat i)); cbn [option_map]; [|discriminate].
  intros H. assert (b = byte_val b0) by congruence. subst b. apply byte_val_range.
Qed.

(** ** The outcome of [parseFrame] on a frame whose header is in the buffer *)

Lemma Uint8Array_new_out buffer off len :
  len < 0 \/ byteLength buffer < off + len ->
  Uint8Array_new buffer off len = Throws RangeError.
Proof.
  intros H. unfold Uint8Array_new.
  destruct (off <? 0); [reflexivity|]. cbn [orb].
  destruct (len <? 0) eqn:E; [reflexivity|]. cbn [orb].
  apply Z.ltb_ge in E.
  now rewrite (proj2 (Z.gtb_gt _ _)) by lia.
Qed.

Lemma parseFrame_by_case view position isSl3 startTime :
  0 <= position ->
  position + headerSize isSl3 <= byteLength view ->
  exists survey fx fy,
    getUint16 view (position + surveyOffset isSl3) = Returns survey /\
    getInt32 view (position + xOffset isSl3) = Returns fx /\
    getInt32 view (position + yOffset isSl3) = Returns fy /\
    getUint16 view (position + frameSizeOffset isSl3)
      = Returns (declared_size view isSl3 position) /\
    (survey <> 0 ->
     parseFrame view position isSl3 startTime = Returns None) /\
    (survey = 0 -> fx = 0 \/ fy = 0 ->
     parseFrame view position isSl3 startTime = Returns None) /\
    (survey = 0 -> fx <> 0 -> fy <> 0 ->
     declared_size view isSl3 position < headerSize isSl3 \/
     byteLength view < position + declared_size view isSl3 position ->
     parseFrame view position isSl3 startTime = Throws RangeError) /\
    (survey = 0 -> fx <> 0 -> fy <> 0 ->
     headerSize isSl3 <= declared_size view isSl3 position ->
     position + declared_size view isSl3 position <= byteLength view ->
     exists frameData,
       parseFrame view position isSl3 startTime = Returns frameData).
Proof.
  intros Hpos Hhdr.
  assert (Hsize : getUint16 view (position + frameSizeOffset isSl3)
                  = Returns (declared_size view isSl3 position)).
  { unfold declared_size, getUint16.
    rewrite getUint_in; [reflexivity| |];
      destruct (headerSize_cases isSl3) as [(?&?&?)|(?&?&?)]; lia. }
  assert (Hd : declared_size view isSl3 position
               = le_value (bytes_at view (position + frameSizeOffset isSl3) 2)).
  { exact (proj2 (proj2 (getUint_inv _ _ _ _ Hsize))). }
  exists (le_value (bytes_at view (position + surveyOffset isSl3) 2)),
         (to_signed 32 (le_value (bytes_at view (position + xOffset isSl3) 4))),
         (to_signed 32 (le_value (bytes_at view (position + yOffset isSl3) 4))).
  split; [unfold getUint16; apply getUint_in; destruct isSl3; cbn in *; lia|].
  split; [unfold getInt32; rewrite getUint_in by (destruct isSl3; cbn in *; lia);
          reflexivity|].
  split; [unfold getInt32; rewrite getUint_in by (destruct isSl3; cbn in *; lia);
          reflexivity|].
  split; [assumption|].
  rewrite Hd. clear Hsize Hd.
  unfold parseFrame.
  destruct isSl3;
    cbn [headerSize frameSizeOffset surveyOffset xOffset yOffset] in *;
    unfold readHeader, getUint16, getUint32, getInt32, getFloat32;
    rewrite !(getUint_in view 2) by lia;
    rewrite !(getUint_in view 4) by lia; cbn [bind].
  all: repeat split.
  all: try (intros Hs; rewrite (proj2 (Z.eqb_neq _ 0) Hs); reflexivity).
  all: intros Hs; rewrite Hs; cbn [negb Z.eqb bind
         h_min_range h_max_range h_water_depth h_x h_y h_secondsOffset
         h_frame_size h_header_size].
  all: try (intros [Hz | Hz]; rewrite Hz; cbn [Z.eqb orb];
            rewrite ?orb_true_r; reflexivity).
  all: intros Hx Hy;
       rewrite (proj2 (Z.eqb_neq _ 0) Hx), (proj2 (Z.eqb_neq _ 0) Hy); cbn [orb].
  all: try (intros Hbad; rewrite Uint8Array_new_out by lia; reflexivity).
  all: intros Hok Hend; rewrite Uint8Array_new_in by lia; cbn [bind];
       (destruct (num_leb _ _); [eauto|]); (destruct (_ || _); eauto).
Qed.

(** ** The scanned frames lie inside the buffer *)

Lemma scanned_frames_inside view isSl3 :
  Forall (fun p => 8 <= p /\
                   p + headerSize isSl3 <= byteLength view /\
                   0 < declared_size view isSl3 p /\
                   p + declared_size view isSl3 p <= byteLength view)
         (scanned_frames view isSl3).
Proof.
  apply Forall_forall. intros p Hp. unfold scanned_frames in Hp.
  apply frame_positions_In in Hp as (H8 & Hhdr & fs & Hfs & H0 & Hend); [|lia].
  unfold declared_size. rewrite Hfs. repeat split; assumption.
Qed.

Lemma scanned_frames_sum view isSl3 :
  sum_Z (map (declared_size view isSl3) (scanned_frames view isSl3))
    <= Z.max 0 (byteLength view - 8).
Proof.
  destruct (frame_positions_layout (List.length view) view isSl3 8)
    as (_ & _ & Hsum & Hin & _); [lia|unfold byteLength; lia|].
  fold (scanned_frames view isSl3) in Hsum, Hin.
  destruct (scanned_frames view isSl3) as [|p ps] eqn:E; [cbn; lia|].
  specialize (Hin ltac:(discriminate)). lia.
Qed.

(** ** How much of the buffer the returned records take *)

Lemma record_of_size view isSl3 startTime p :
  0 <= declared_size view isSl3 p ->
  sum_Z (map frame_size (record_of view isSl3 startTime p))
    <= declared_size view isSl3 p /\
  Forall (fun r => headerSize isSl3 <= frame_size r)
         (record_of view isSl3 startTime p).
Proof.
  intros H0. unfold record_of.
  destruct (parseFrame view p isSl3 startTime) as [[f|]| |] eqn:Ep;
    cbn [push_frame]; try (cbn; split; [lia|constructor]).
  destruct (num_gtb _ _); [|cbn; split; [lia|constructor]].
  apply parseFrame_Some in Ep as [signal D].
  pose proof (byteLength_Uint8Array_new _ _ _ _ (dec_signal _ _ _ _ _ _ D)) as HL.
  pose proof (dec_header_size _ _ _ _ _ _ D) as Hh.
  assert (Hd : declared_size view isSl3 p = frame_size f)
    by (unfold declared_size; now rewrite (dec_frame_size _ _ _ _ _ _ D)).
  assert (0 <= byteLength signal) by (unfold byteLength; lia).
  cbn. split; [lia|]. constructor; [lia|constructor].
Qed.

Lemma records_of_size view isSl3 startTime positions :
  Forall (fun p => 0 <= declared_size view isSl3 p) positions ->
  sum_Z (map frame_size (records_of view isSl3 startTime positions))
    <= sum_Z (map (declared_size view isSl3) positions) /\
  Forall (fun r => headerSize isSl3 <= frame_size r)
         (records_of view isSl3 startTime positions).
Proof.
  induction 1 as [|p ps Hp _ [IHsum IHall]]; cbn [records_of flat_map map];
    [cbn; split; [lia|constructor]|].
  destruct (record_of_size view isSl3 startTime p Hp) as [Hsum Hall].
  fold (records_of view isSl3 startTime ps).
  rewrite map_app. unfold sum_Z in *. rewrite fold_right_app.
  split; [|apply Forall_app; split; assumption].
  cbn [fold_right].
  assert (Hshift : forall l acc, fold_right Z.add acc l = fold_right Z.add 0 l + acc).
  { induction l as [|a l IHl]; intros acc; cbn [fold_right]; [lia|].
    rewrite IHl. lia. }
  rewrite Hshift. lia.
Qed.

Lemma sum_at_least (l : list Z) (c : Z) :
  Forall (fun z => c <= z) l -> Z.of_nat (List.length l) * c <= sum_Z l.
Proof.
  induction 1 as [|z l Hz _ IH]; cbn [List.length sum_Z fold_right]; [lia|].
  fold (sum_Z l). rewrite Nat2Z.inj_succ. lia.
Qed.

(** X2.  The returned records take no more than the bytes after the 8-byte
    file header: their frame sizes, each at least the header size, add up
    to at most [byteLength - 8], so a buffer of [n] bytes yields at most
    [(n - 8) / headerSize] records. *)
Theorem returned_records_fit arrayBuffer fileName records :
  parseSonarFile arrayBuffer fileName = Returns records ->
  Forall (fun r => headerSize (isSl3_of fileName) <= frame_size r) records /\
  sum_Z (map frame_size records) <= Z.max 0 (byteLength arrayBuffer - 8) /\
  Z.of_nat (List.length records) * headerSize (isSl3_of fileName)
    <= Z.max 0 (byteLength arrayBuffer - 8).
Proof.
  intros H.
  enough (Forall (fun r => headerSize (isSl3_of fileName) <= frame_size r) records /\
          sum_Z (map frame_size records) <= Z.max 0 (byteLength arrayBuffer - 8))
    as [Hall Hsum].
  { repeat split; try assumption.
    apply Z.le_trans with (sum_Z (map frame_size records)); [|assumption].
    rewrite <- (length_map frame_size). apply sum_at_least.
    apply Forall_map. assumption. }
  apply returned_records_per_frame in H as [-> | (st & _ & ->)];
    [cbn; split; [constructor|lia]|].
  destruct (records_of_size arrayBuffer (isSl3_of fileName) st
              (scanned_frames arrayBuffer (isSl3_of fileName))) as [Hle Hsizes].
  { eapply Forall_impl; [|apply scanned_frames_inside]. cbn. intros; lia. }
  split; [assumption|].
  pose proof (scanned_frames_sum arrayBuffer (isSl3_of fileName)). lia.
Qed.

Lemma returned_records_fit_witness :
  Forall (fun r => 144 <= frame_size r)
         [Samples.one_frame_record] /\
  sum_Z (map frame_size [Samples.one_frame_record])
    <= Z.max 0 (byteLength Samples.one_frame - 8) /\
  Z.of_nat (List.length [Samples.one_frame_record]) * 144
    <= Z.max 0 (byteLength Samples.one_frame - 8).
Proof.
  apply (returned_records_fit Samples.one_frame "log.sl2"%string).
  vm_compute. reflexivity.
Defined.

(** ** What holds of every returned record *)

(** X3.  Every returned record comes from a primary-channel frame that lies
    inside the buffer after the file header; its depth is positive, its
    coordinates are non-zero 32-bit signed integers, its header size is the
    format's, its frame size is a 16-bit value of at least the header size,
    its longitude is the transform of its [x], [max_range <= min_range] is
    false on it, and its single-sample density is a byte or undefined. *)
Theorem returned_record_facts arrayBuffer fileName records r :
  parseSonarFile arrayBuffer fileName = Returns records ->
  In r records ->
  num_gtb (water_depth r) (num_of_Z 0) = true /\
  (x r <> 0 /\ - 2 ^ 31 <= x r < 2 ^ 31) /\
  (y r <> 0 /\ - 2 ^ 31 <= y r < 2 ^ 31) /\
  header_size r = headerSize (isSl3_of fileName) /\
  header_size r <= frame_size r < 2 ^ 16 /\
  longitude r = longitude_of (x r) /\
  num_leb (max_range r) (min_range r) = false /\
  (bottom_density_1 r = None \/
   exists b, bottom_density_1 r = Some b /\ 0 <= b <= 255) /\
  exists position,
    8 <= position /\
    position + frame_size r <= byteLength arrayBuffer /\
    getUint16 arrayBuffer (position + surveyOffset (isSl3_of fileName)) = Returns 0.
Proof.
  intros H Hr.
  destruct (returned_record_origin _ _ _ _ H Hr) as (st & p & _ & Hp & Hframe & Hdepth).
  apply parseFrame_Some in Hframe as [signal D].
  pose proof (byteLength_Uint8Array_new _ _ _ _ (dec_signal _ _ _ _ _ _ D)) as HL.
  assert (0 <= byteLength signal) by (unfold byteLength; lia).
  pose proof (getUint_range _ 2 _ _ ltac:(lia) (dec_frame_size _ _ _ _ _ _ D)) as Hfs.
  change (256 ^ 2) with (2 ^ 16) in Hfs.
  apply frame_positions_In in Hp as (H8 & _ & fs & Hfs' & _ & Hend); [|lia].
  assert (fs = frame_size r)
    by (pose proof (dec_frame_size _ _ _ _ _ _ D); congruence).
  subst fs.
  split; [assumption|].
  split; [split; [apply D|apply (getInt32_range _ _ _ (dec_x _ _ _ _ _ _ D))]|].
  split; [split; [apply D|apply (getInt32_range _ _ _ (dec_y _ _ _ _ _ _ D))]|].
  split; [apply D|]. split; [lia|]. split; [apply D|]. split; [apply D|].
  split.
  - rewrite (dec_density_1 _ _ _ _ _ _ D).
    destruct (Uint8Array_get signal _) as [b|] eqn:Eb; [|now left].
    right. exists b. split; [reflexivity|].
    apply Uint8Array_get_range in Eb. lia.
  - exists p. repeat split; [assumption|assumption|apply D].
Qed.

Lemma returned_record_facts_witness :
  num_gtb (water_depth Samples.one_frame_record) (num_of_Z 0) = true /\
  (x Samples.one_frame_record <> 0 /\ - 2 ^ 31 <= x Samples.one_frame_record < 2 ^ 31) /\
  (y Samples.one_frame_record <> 0 /\ - 2 ^ 31 <= y Samples.one_frame_record < 2 ^ 31) /\
  header_size Samples.one_frame_record = 144 /\
  header_size Samples.one_frame_record <= frame_size Samples.one_frame_record < 2 ^ 16 /\
  longitude Samples.one_frame_record = longitude_of (x Samples.one_frame_record) /\
  num_leb (max_range Samples.one_frame_record) (min_range Samples.one_frame_record) = false /\
  (bottom_density_1 Samples.one_frame_record = None \/
   exists b, bottom_density_1 Samples.one_frame_record = Some b /\ 0 <= b <= 255) /\
  exists position,
    8 <= position /\
    position + frame_size Samples.one_frame_record <= byteLength Samples.one_frame /\
    getUint16 Samples.one_frame (position + 32) = Returns 0.
Proof.
  apply (returned_record_facts Samples.one_frame "log.sl2"%string
           [Samples.one_frame_record]).
  - vm_compute. reflexivity.
  - left. reflexivity.
Defined.

(** ** When the parse throws *)

Lemma frame_outcome view isSl3 startTime position :
  0 <= position ->
  position + headerSize isSl3 <= byteLength view ->
  position + declared_size view isSl3 position <= byteLength view ->
  (undersized_primary view isSl3 position /\
   parseFrame view position isSl3 startTime = Throws RangeError) \/
  (~ undersized_primary view isSl3 position /\
   exists frameData, parseFrame view position isSl3 startTime = Returns frameData).
Proof.
  intros Hpos Hhdr Hend.
  destruct (parseFrame_by_case view position isSl3 startTime Hpos Hhdr)
    as (survey & fx & fy & Hs & Hx & Hy & Hsize & Hother & Hzero & Hthrow & Hok).
  destruct (Z.eq_dec survey 0) as [Es | Es].
  2:{ right. split; [|eauto]. intros (Hs' & _). congruence. }
  destruct (Z.eq_dec fx 0) as [Ex | Ex].
  { right. split; [|eauto]. intros (_ & (fx' & Hx' & Hne) & _). congruence. }
  destruct (Z.eq_dec fy 0) as [Ey | Ey].
  { right. split; [|eauto]. intros (_ & _ & (fy' & Hy' & Hne) & _). congruence. }
  destruct (Z.lt_ge_cases (declared_size view isSl3 position) (headerSize isSl3))
    as [Hsmall | Hbig].
  - left. split; [|apply Hthrow; auto].
    subst survey. repeat split; eauto.
  - right. split; [|apply Hok; auto]. intros (_ & _ & _ & Hlt). lia.
Qed.

Lemma while_frames_outcome fuel view isSl3 startTime : forall position data,
  0 <= position ->
  byteLength view - position <= Z.of_nat fuel ->
  (Exists (undersized_primary view isSl3) (frame_positions fuel view isSl3 position) /\
   while_frames fuel view isSl3 startTime position data = Throws RangeError) \/
  (~ Exists (undersized_primary view isSl3) (frame_positions fuel view isSl3 position) /\
   while_frames fuel view isSl3 startTime position data =
   Returns (data ++ records_of view isSl3 startTime
                      (frame_positions fuel view isSl3 position))).
Proof.
  assert (Hnil : forall data : list Frame,
             ~ Exists (undersized_primary view isSl3) [] /\
             Returns data = Returns (data ++ records_of view isSl3 startTime [])).
  { intros data. split; [intros H; inversion H|]. cbn. now rewrite app_nil_r. }
  induction fuel as [|fuel IH]; intros position data Hpos Hfuel;
    cbn [while_frames frame_positions];
    destruct (position <? byteLength view) eqn:Elt; cbn [negb];
    try (right; apply Hnil).
  - apply Z.ltb_lt in Elt. lia.
  - fold (headerSize isSl3). fold (frameSizeOffset isSl3).
    destruct (position + headerSize isSl3 >? byteLength view) eqn:Eh;
      [right; apply Hnil|].
    apply gtb_false_iff in Eh.
    destruct (parseFrame_by_case view position isSl3 startTime Hpos Eh)
      as (_ & _ & _ & _ & _ & _ & Hsize & _).
    rewrite Hsize. cbn [bind].
    pose proof (getUint_nonneg _ _ _ _ Hsize) as H0.
    destruct (declared_size view isSl3 position =? 0) eqn:E0; cbn [orb];
      [right; apply Hnil|].
    apply Z.eqb_neq in E0.
    destruct (position + declared_size view isSl3 position >? byteLength view) eqn:Eover;
      [right; apply Hnil|].
    apply gtb_false_iff in Eover.
    destruct (frame_outcome view isSl3 startTime position Hpos Eh Eover)
      as [[Hbad Hthrow] | [Hgood [fd Hfd]]].
    + left. split; [now apply Exists_cons_hd|]. now rewrite Hthrow.
    + rewrite Hfd. cbn [bind].
      destruct (IH (position + declared_size view isSl3 position) (push_frame data fd))
        as [[Hex Hthrow] | [Hno Hret]]; [lia|lia| |].
      * left. split; [now apply Exists_cons_tl|assumption].
      * right. split.
        { intros Hex. apply Exists_cons in Hex as [? | ?]; contradiction. }
        rewrite Hret. f_equal. unfold records_of. cbn [flat_map].
        unfold record_of at 2. rewrite Hfd.
        rewrite (push_frame_app data fd). now rewrite <- app_assoc.
Qed.



(** ** getAverage on any index *)

Lemma total_range samples :
  0 <= total samples <= 255 * Z.of_nat (List.length samples).
Proof.
  induction samples as [|b samples IH]; cbn [total fold_right List.length]; [lia|].
  fold (total samples). pose proof (byte_val_range b).
  rewrite Nat2Z.inj_succ. lia.
Qed.

(** X8.  From a non-negative integer index [getAverage] reads exactly the
    window [array[index .. index + count)] clipped at the end of the array:
    it returns the sum of those samples, their number
    [max 0 (min count (length - index))], and their mean, or the literal 0
    when the window is empty.  With a NaN index it reads nothing and
    returns sum 0, average 0, count 0. *)
Theorem getAverage_clipped array index count :
  0 <= index ->
  getAverage array (IInt index) count =
  {| sum := IInt (total (window array index count));
     avg := if Z.of_nat (List.length (window array index count)) >? 0
            then mean (window array index count)
            else num_of_Z 0;
     count := Z.of_nat (List.length (window array index count)) |} /\
  Z.of_nat (List.length (window array index count))
    = Z.max 0 (Z.min count (byteLength array - index)) /\
  0 <= total (window array index count)
    <= 255 * Z.of_nat (List.length (window array index count)) /\
  getAverage array INaN count = {| sum := IInt 0; avg := num_of_Z 0; count := 0 |}.
Proof.
  intros Hindex. split; [|split; [|split]].
  - unfold getAverage. rewrite getAverage_loop_window by lia.
    rewrite Z.add_0_r. cbn [Z.add]. fold (window array index count). reflexivity.
  - unfold window, byteLength. rewrite length_firstn, length_skipn. lia.
  - apply total_range.
  - apply getAverage_NaN.
Qed.

Lemma getAverage_clipped_witness :
  getAverage [x0a; x14; x1e] (IInt 1) 10 =
  {| sum := IInt (total (window [x0a; x14; x1e] 1 10));
     avg := if Z.of_nat (List.length (window [x0a; x14; x1e] 1 10)) >? 0
            then mean (window [x0a; x14; x1e] 1 10)
            else num_of_Z 0;
     count := Z.of_nat (List.length (window [x0a; x14; x1e] 1 10)) |} /\
  Z.of_nat (List.length (window [x0a; x14; x1e] 1 10))
    = Z.max 0 (Z.min 10 (byteLength [x0a; x14; x1e] - 1)) /\
  0 <= total (window [x0a; x14; x1e] 1 10)
    <= 255 * Z.of_nat (List.length (window [x0a; x14; x1e] 1 10)) /\
  getAverage [x0a; x14; x1e] INaN 10 = {| sum := IInt 0; avg := num_of_Z 0; count := 0 |}.
Proof.
  apply (getAverage_clipped [x0a; x14; x1e] 1 10). lia.
Defined.

Lemma getAverage_loop_poisoned array index : forall remaining i c,
  0 <= i ->
  getAverage_loop array (IInt index) remaining i INaN c =
  (INaN, c + Z.max 0 (Z.min (Z.of_nat remaining) (byteLength array - index - i))).
Proof.
  induction remaining as [|remaining IH]; intros i c Hi;
    cbn [getAverage_loop int_add int_ltb].
  - f_equal. cbn. lia.
  - destruct (index + i <? byteLength array) eqn:E.
    + apply Z.ltb_lt in E.
      assert (Hadd : forall v, add_element INaN v = INaN) by (now intros [b|]).
      rewrite Hadd, IH by lia. f_equal. lia.
    + apply Z.ltb_ge in E. rewrite IH by lia. f_equal. lia.
Qed.

(** X9.  A negative index is not guarded: [array[currentIndex]] is then
    [undefined] while [currentIndex < array.length] holds, so the sum and
    the average are NaN and every index below the length is counted. *)
Theorem getAverage_negative_index array index count :
  index < 0 -> 0 < count ->
  getAverage array (IInt index) count =
  {| sum := INaN; avg := S754_nan;
     count := Z.min count (byteLength array - index) |}.
Proof.
  intros Hneg Hcount. unfold getAverage.
  destruct (Z.to_nat count) as [|remaining] eqn:Ec; [lia|].
  cbn [getAverage_loop int_add int_ltb].
  assert (0 <= byteLength array) by (unfold byteLength; lia).
  rewrite Z.add_0_r, (proj2 (Z.ltb_lt index (byteLength array))) by lia.
  unfold Uint8Array_get. rewrite (proj2 (Z.leb_gt 0 index)) by lia.
  cbn [andb add_element].
  rewrite getAverage_loop_poisoned by lia.
  replace (0 + 1 + Z.max 0 (Z.min (Z.of_nat remaining) (byteLength array - index - (0 + 1))))
    with (Z.min count (byteLength array - index)) by lia.
  rewrite (proj2 (Z.gtb_gt _ 0)) by lia.
  reflexivity.
Qed.

Lemma getAverage_negative_index_witness :
  getAverage [x0a; x14; x1e] (IInt (-2)) 10 =
  {| sum := INaN; avg := S754_nan;
     count := Z.min 10 (byteLength [x0a; x14; x1e] - (-2)) |}.
Proof.
  apply (getAverage_negative_index [x0a; x14; x1e] (-2) 10); lia.
Defined.

(** ** The order of Numbers *)

Lemma SFcompare_key a b :
  is_nan a = false -> is_nan b = false ->
  (SFcompare a b = Some Lt <-> key_lt (order_key a) (order_key b)) /\
  (SFcompare a b = Some Eq <-> order_key a = order_key b) /\
  (SFcompare a b = Some Gt <-> key_lt (order_key b) (order_key a)).
Proof.
  destruct a as [sa|sa| |sa ma ea], b as [sb|sb| |sb mb eb];
    cbn [is_nan]; try discriminate; intros _ _;
    try destruct sa; try destruct sb; cbn [SFcompare order_key key_lt];
    try (repeat split; intros H; try discriminate H; try reflexivity;
         try (injection H; intros; lia); lia).
  - fold (Pos.compare ma mb).
    destruct (Z.compare_spec ea eb) as [He|He|He];
      [destruct (Pos.compare_spec ma mb) as [Hm|Hm|Hm]; cbn [CompOpp]|..];
      repeat split; intros H; try discriminate H; try reflexivity;
      try (injection H; intros; lia); try lia; try (subst; reflexivity).
  - fold (Pos.compare ma mb).
    destruct (Z.compare_spec ea eb) as [He|He|He];
      [destruct (Pos.compare_spec ma mb) as [Hm|Hm|Hm]|..];
      repeat split; intros H; try discriminate H; try reflexivity;
      try (injection H; intros; lia); try lia; try (subst; reflexivity).
Qed.

Lemma num_ltb_key a b :
  is_nan a = false -> is_nan b = false ->
  num_ltb a b = true <-> key_lt (order_key a) (order_key b).
Proof.
  intros Ha Hb. destruct (SFcompare_key a b Ha Hb) as (Hlt & _ & _).
  unfold num_ltb, SFltb. rewrite <- Hlt.
  destruct (SFcompare a b) as [[ | | ]|]; split; congruence.
Qed.

Lemma num_leb_key a b :
  is_nan a = false -> is_nan b = false ->
  num_leb a b = true <->
  key_lt (order_key a) (order_key b) \/ order_key a = order_key b.
Proof.
  intros Ha Hb. destruct (SFcompare_key a b Ha Hb) as (Hlt & Heq & _).
  unfold num_leb, SFleb. rewrite <- Hlt, <- Heq.
  destruct (SFcompare a b) as [[ | | ]|]; split; intros H;
    try congruence; auto; destruct H; congruence.
Qed.

Lemma num_ltb_not_nan a b :
  num_ltb a b = true -> is_nan a = false /\ is_nan b = false.
Proof.
  unfold num_ltb, SFltb.
  destruct a as [ | | | ], b as [ | | | ]; cbn [SFcompare is_nan];
    try discriminate; auto.
Qed.

Lemma key_lt_total a b : key_lt a b \/ a = b \/ key_lt b a.
Proof.
  destruct a as [[a1 a2] a3], b as [[b1 b2] b3]. cbn [key_lt].
  destruct (Z.lt_total a1 b1) as [H|[H|H]]; [lia| |lia].
  destruct (Z.lt_total a2 b2) as [H2|[H2|H2]]; [lia| |lia].
  destruct (Z.lt_total a3 b3) as [H3|[H3|H3]]; [lia| |lia].
  right; left; congruence.
Qed.

Lemma key_lt_trans a b c : key_lt a b -> key_lt b c -> key_lt a c.
Proof.
  destruct a as [[a1 a2] a3], b as [[b1 b2] b3], c as [[c1 c2] c3].
  cbn [key_lt]. lia.
Qed.

Lemma num_leb_refl a : is_nan a = false -> num_leb a a = true.
Proof. intros Ha. apply num_leb_key; auto. Qed.

Lemma num_ltb_false_leb a b :
  is_nan a = false -> is_nan b = false ->
  num_ltb a b = false -> num_leb b a = true.
Proof.
  intros Ha Hb H. apply num_leb_key; auto.
  destruct (key_lt_total (order_key a) (order_key b)) as [Hk|[Hk|Hk]]; auto.
  apply num_ltb_key in Hk; auto. congruence.
Qed.

(** ** The range loop of updateMapColors *)

Lemma color_range_loop_covers values : forall min max,
  is_nan min = false -> is_nan max = false ->
  let '(lo, hi) := color_range_loop values min max in
  is_nan lo = false /\ is_nan hi = false /\
  num_leb lo min = true /\ num_leb max hi = true /\
  (lo = min \/ In lo values) /\ (hi = max \/ In hi values) /\
  Forall (fun v => is_nan v = false ->
                   num_leb lo v = true /\ num_leb v hi = true) values.
Proof.
  induction values as [|v rest IH]; intros min max Hmin Hmax;
    cbn [color_range_loop].
  - repeat split; auto using num_leb_refl.
  - set (min' := if num_ltb v min then v else min).
    set (max' := if num_gtb v max then v else max).
    assert (Hmin' : is_nan min' = false).
    { subst min'. destruct (num_ltb v min) eqn:E; auto.
      apply (num_ltb_not_nan _ _ E). }
    assert (Hmax' : is_nan max' = false).
    { subst max'. change (num_gtb v max) with (num_ltb max v). destruct (num_ltb max v) eqn:E; auto.
      apply (num_ltb_not_nan _ _ E). }
    specialize (IH min' max' Hmin' Hmax').
    destruct (color_range_loop rest min' max') as [lo hi].
    destruct IH as (Hlo & Hhi & Hlomin & Hmaxhi & Inlo & Inhi & Hall).
    assert (Hmm : num_leb min' min = true).
    { subst min'. destruct (num_ltb v min) eqn:E; auto using num_leb_refl.
      destruct (num_ltb_not_nan _ _ E) as [Hv _].
      apply num_leb_key; [exact Hv|exact Hmin|].
      left. apply num_ltb_key; auto. }
    assert (HMM : num_leb max max' = true).
    { subst max'. change (num_gtb v max) with (num_ltb max v).
      destruct (num_ltb max v) eqn:E; auto using num_leb_refl.
      destruct (num_ltb_not_nan _ _ E) as [_ Hv].
      apply num_leb_key; [exact Hmax|exact Hv|].
      left. apply num_ltb_key; auto. }
    assert (Hle_trans : forall a b c, is_nan a = false -> is_nan b = false ->
              is_nan c = false -> num_leb a b = true -> num_leb b c = true ->
              num_leb a c = true).
    { intros a b c Ha Hb Hc Hab Hbc.
      apply num_leb_key in Hab; auto. apply num_leb_key in Hbc; auto.
      apply num_leb_key; auto.
      destruct Hab as [Hab|Hab], Hbc as [Hbc|Hbc];
        [left; eapply key_lt_trans; eauto | left; congruence
        | left; congruence | right; congruence]. }
    repeat split; auto.
    + apply (Hle_trans lo min' min); auto.
    + apply (Hle_trans max max' hi); auto.
    + destruct Inlo as [->|Hin]; [|right; right; exact Hin].
      subst min'. destruct (num_ltb v min); [right; left|left]; reflexivity.
    + destruct Inhi as [->|Hin]; [|right; right; exact Hin].
      subst max'. destruct (num_gtb v max); [right; left|left]; reflexivity.
    + constructor; [|exact Hall].
      intros Hv. split.
      * apply (Hle_trans lo min' v); auto.
        subst min'. destruct (num_ltb v min) eqn:E; auto using num_leb_refl.
        apply num_ltb_false_leb; auto.
      * apply (Hle_trans v max' hi); auto.
        subst max'. change (num_gtb v max) with (num_ltb max v).
        destruct (num_ltb max v) eqn:E; auto using num_leb_refl.
        apply num_ltb_false_leb; auto.
Qed.

Lemma color_range_loop_NaN values : forall min max,
  Forall (fun v => is_nan v = true) values ->
  color_range_loop values min max = (min, max).
Proof.
  induction values as [|v rest IH]; intros min max Hall; [reflexivity|].
  inversion Hall as [|? ? Hv Hrest]; subst.
  destruct v; try discriminate Hv.
  cbn [color_range_loop].
  replace (num_ltb S754_nan min) with false by (destruct min; reflexivity).
  replace (num_gtb S754_nan max) with false by (destruct max; reflexivity).
  apply IH, Hrest.
Qed.

Lemma above_infinity v :
  num_leb (S754_infinity false) v = true -> v = S754_infinity false.
Proof. destruct v as [ |[|]| |[|] ? ?]; try discriminate; reflexivity. Qed.

Lemma below_neg_infinity v :
  num_leb v (S754_infinity true) = true -> v = S754_infinity true.
Proof. destruct v as [ |[|]| |[|] ? ?]; try discriminate; reflexivity. Qed.

(** X10.  The range that [updateMapColors] computes for the selected attribute
    bounds every value that is not NaN, from below and from above; when some
    record has such a value, both bounds are values of records; when none has
    (no record at all, or NaN or [undefined] everywhere), the range stays
    (Infinity, -Infinity). *)
Theorem color_range_bounds (attribute : Frame -> Number) processedData :
  let '(min, max) := color_range attribute processedData in
  Forall (fun p => is_nan (attribute p) = false ->
                   num_leb min (attribute p) = true /\
                   num_leb (attribute p) max = true) processedData /\
  (Exists (fun p => is_nan (attribute p) = false) processedData ->
   exists p q, In p processedData /\ In q processedData /\
               min = attribute p /\ max = attribute q) /\
  (Forall (fun p => is_nan (attribute p) = true) processedData ->
   min = S754_infinity false /\ max = S754_infinity true).
Proof.
  unfold color_range.
  pose proof (color_range_loop_covers (map attribute processedData)
                (S754_infinity false) (S754_infinity true) eq_refl eq_refl)
    as Hcov.
  pose proof (color_range_loop_NaN (map attribute processedData)
                (S754_infinity false) (S754_infinity true)) as Hnan.
  destruct (color_range_loop _ _ _) as [lo hi].
  destruct Hcov as (_ & _ & _ & _ & Inlo & Inhi & Hall).
  rewrite Forall_map in Hall.
  split; [exact Hall|]. split.
  - intros Hex. apply Exists_exists in Hex. destruct Hex as (w & Hw & Hnw).
    rewrite Forall_forall in Hall. destruct (Hall w Hw Hnw) as [Hlow Hwhi].
    assert (Hlo : In lo (map attribute processedData)).
    { destruct Inlo as [->|H]; [|exact H].
      apply above_infinity in Hlow. rewrite <- Hlow. apply in_map, Hw. }
    assert (Hhi : In hi (map attribute processedData)).
    { destruct Inhi as [->|H]; [|exact H].
      apply below_neg_infinity in Hwhi. rewrite <- Hwhi. apply in_map, Hw. }
    apply in_map_iff in Hlo. destruct Hlo as (p & Hp & Inp).
    apply in_map_iff in Hhi. destruct Hhi as (q & Hq & Inq).
    exists p, q. auto.
  - intros Hn. rewrite <- (Forall_map attribute (fun v => is_nan v = true)) in Hn.
    specialize (Hnan Hn). split; congruence.
Qed.

(** ** A frame is decoded from its own bytes *)

Lemma skipn_app_shift (pre view : ArrayBuffer) off :
  0 <= off ->
  skipn (Z.to_nat (byteLength pre + off)) (pre ++ view) = skipn (Z.to_nat off) view.
Proof.
  intros Hoff. unfold byteLength.
  rewrite Z2Nat.inj_add, Nat2Z.id by lia.
  rewrite skipn_app, skipn_all2 by lia.
  cbn [app]. f_equal. lia.
Qed.

Lemma getUint_shift pre view size off :
  0 <= off ->
  getUint size (pre ++ view) (byteLength pre + off) = getUint size view off.
Proof.
  intros Hoff. unfold getUint, in_view, bytes_at.
  rewrite skipn_app_shift by assumption.
  replace ((0 <=? byteLength pre + off)
           && (byteLength pre + off + size <=? byteLength (pre ++ view)))
    with ((0 <=? off) && (off + size <=? byteLength view)); [reflexivity|].
  apply eq_true_iff_eq. rewrite !andb_true_iff, !Z.leb_le.
  unfold byteLength. rewrite length_app. lia.
Qed.

Lemma Uint8Array_new_shift pre view off len :
  0 <= off ->
  Uint8Array_new (pre ++ view) (byteLength pre + off) len =
  Uint8Array_new view off len.
Proof.
  intros Hoff. unfold Uint8Array_new.
  rewrite skipn_app_shift by assumption.
  replace ((byteLength pre + off <? 0) || (len <? 0)
           || (byteLength pre + off + len >? byteLength (pre ++ view)))
    with ((off <? 0) || (len <? 0) || (off + len >? byteLength view));
    [reflexivity|].
  apply eq_true_iff_eq.
  rewrite !orb_true_iff, !Z.ltb_lt, !Z.gtb_gt.
  unfold byteLength. rewrite length_app. lia.
Qed.

Lemma readHeader_shift pre view position a b c d e f g h i :
  0 <= position -> 0 <= a -> 0 <= b -> 0 <= c -> 0 <= d -> 0 <= e ->
  0 <= f -> 0 <= g -> 0 <= h ->
  readHeader (pre ++ view) (byteLength pre + position) a b c d e f g h i =
  readHeader view position a b c d e f g h i.
Proof.
  intros. unfold readHeader, getUint16, getUint32, getInt32, getFloat32.
  rewrite <- !Z.add_assoc.
  rewrite !getUint_shift by lia.
  reflexivity.
Qed.

Lemma parseFrame_shift pre view position isSl3 startTime :
  0 <= position ->
  parseFrame (pre ++ view) (byteLength pre + position) isSl3 startTime =
  parseFrame view position isSl3 startTime.
Proof.
  intros Hpos. unfold parseFrame.
  destruct isSl3; rewrite readHeader_shift by lia;
    match goal with
    | |- context [readHeader ?v ?p ?a ?b ?c ?d ?e ?f ?g ?h ?i] =>
        destruct (readHeader v p a b c d e f g h i) as [[hd|]| |] eqn:Ehd
    end; cbn [bind]; try reflexivity;
    destruct ((h_x hd =? 0) || (h_y hd =? 0)); try reflexivity;
    apply readHeader_Some in Ehd;
    destruct Ehd as (_ & _ & _ & _ & _ & _ & _ & _ & Ehs);
    rewrite <- !Z.add_assoc;
    rewrite Uint8Array_new_shift by lia;
    replace (byteLength pre + (position + h_frame_size hd)
             - (byteLength pre + (position + h_header_size hd)))
      with (position + h_frame_size hd - (position + h_header_size hd)) by lia;
    reflexivity.
Qed.

Lemma truncated_app (frame suf : ArrayBuffer) :
  truncated (byteLength frame) (frame ++ suf) = frame.
Proof.
  unfold truncated, byteLength. rewrite Nat2Z.id, firstn_app, Nat.sub_diag.
  cbn [firstn]. rewrite firstn_all, app_nil_r. reflexivity.
Qed.

Lemma parseFrame_without_suffix frame suf isSl3 startTime :
  headerSize isSl3 <= byteLength frame ->
  declared_size frame isSl3 0 <= byteLength frame ->
  parseFrame (frame ++ suf) 0 isSl3 startTime = parseFrame frame 0 isSl3 startTime.
Proof.
  intros Hhdr Hsize.
  assert (Hlen : byteLength frame <= byteLength (frame ++ suf))
    by (unfold byteLength; rewrite length_app; lia).
  assert (Hdecl : getUint16 (frame ++ suf) (0 + frameSizeOffset isSl3)
                  = Returns (declared_size frame isSl3 0)).
  { unfold declared_size, getUint16.
    rewrite <- (getUint_truncated (byteLength frame) (frame ++ suf)),
      truncated_app;
      [|unfold byteLength; lia|destruct isSl3; cbn; lia
       |destruct isSl3; cbn [headerSize frameSizeOffset] in *; lia|lia].
    rewrite (getUint_in frame);
      [reflexivity|destruct isSl3; cbn; lia
      |destruct isSl3; cbn [headerSize frameSizeOffset] in *; lia]. }
  rewrite <- (parseFrame_truncated (byteLength frame) (frame ++ suf) 0 isSl3
                startTime (declared_size frame isSl3 0));
    [now rewrite truncated_app|unfold byteLength in *; lia|lia|lia
    |exact Hdecl|lia].
Qed.

(** X6.  parseFrame decodes a frame from that frame's bytes alone: a frame that
    holds its header and the bytes it declares gives the same result (a
    record, null, or the RangeError) after any bytes and before any bytes as
    it gives on its own. *)
Theorem parseFrame_reads_its_frame pre frame suf isSl3 startTime :
  headerSize isSl3 <= byteLength frame ->
  declared_size frame isSl3 0 <= byteLength frame ->
  parseFrame (pre ++ frame ++ suf) (byteLength pre) isSl3 startTime =
  parseFrame frame 0 isSl3 startTime.
Proof.
  intros Hhdr Hsize.
  rewrite <- (Z.add_0_r (byteLength pre)).
  rewrite parseFrame_shift by lia.
  now apply parseFrame_without_suffix.
Qed.

Lemma parseFrame_reads_its_frame_witness :
  parseFrame
    (Samples.zeros 8 ++
     Samples.sl2_frame 154 0 0 Samples.f32_100 Samples.f32_32_8084
       1000000 2000000 5000 1700000000 Samples.ramp ++
     Samples.sl2_frame 154 0 0 Samples.f32_100 Samples.f32_32_8084
       1000001 2000001 6000 7 Samples.ramp)
    (byteLength (Samples.zeros 8)) false 1700000000 =
  parseFrame
    (Samples.sl2_frame 154 0 0 Samples.f32_100 Samples.f32_32_8084
       1000000 2000000 5000 1700000000 Samples.ramp)
    0 false 1700000000.
Proof.
  apply (parseFrame_reads_its_frame (Samples.zeros 8)
           (Samples.sl2_frame 154 0 0 Samples.f32_100 Samples.f32_32_8084
              1000000 2000000 5000 1700000000 Samples.ramp)
           (Samples.sl2_frame 154 0 0 Samples.f32_100 Samples.f32_32_8084
              1000001 2000001 6000 7 Samples.ramp) false 1700000000).
  - vm_compute. discriminate.
  - vm_compute. discriminate.
Defined.

(** ** The order of parseFrame's tests *)

(** X5.  On a frame whose header lies inside the buffer, parseFrame returns null
    for a survey type other than 0 and for a zero [x] or [y] whatever size
    the frame declares; for a primary frame with coordinates it throws
    RangeError when the declared size is below the header size or passes the
    end of the buffer, and returns (a record or null) otherwise. *)
Theorem parseFrame_outcomes view position isSl3 startTime :
  0 <= position ->
  position + headerSize isSl3 <= byteLength view ->
  exists survey fx fy,
    getUint16 view (position + surveyOffset isSl3) = Returns survey /\
    getInt32 view (position + xOffset isSl3) = Returns fx /\
    getInt32 view (position + yOffset isSl3) = Returns fy /\
    getUint16 view (position + frameSizeOffset isSl3)
      = Returns (declared_size view isSl3 position) /\
    (survey <> 0 ->
     parseFrame view position isSl3 startTime = Returns None) /\
    (survey = 0 -> fx = 0 \/ fy = 0 ->
     parseFrame view position isSl3 startTime = Returns None) /\
    (survey = 0 -> fx <> 0 -> fy <> 0 ->
     declared_size view isSl3 position < headerSize isSl3 \/
     byteLength view < position + declared_size view isSl3 position ->
     parseFrame view position isSl3 startTime = Throws RangeError) /\
    (survey = 0 -> fx <> 0 -> fy <> 0 ->
     headerSize isSl3 <= declared_size view isSl3 position ->
     position + declared_size view isSl3 position <= byteLength view ->
     exists frameData,
       parseFrame view position isSl3 startTime = Returns frameData).
Proof. exact (parseFrame_by_case view position isSl3 startTime). Qed.

Lemma parseFrame_outcomes_witness :
  exists survey fx fy,
    getUint16 Samples.short_frame (8 + surveyOffset false) = Returns survey /\
    getInt32 Samples.short_frame (8 + xOffset false) = Returns fx /\
    getInt32 Samples.short_frame (8 + yOffset false) = Returns fy /\
    getUint16 Samples.short_frame (8 + frameSizeOffset false)
      = Returns (declared_size Samples.short_frame false 8) /\
    (survey <> 0 ->
     parseFrame Samples.short_frame 8 false 1700000000 = Returns None) /\
    (survey = 0 -> fx = 0 \/ fy = 0 ->
     parseFrame Samples.short_frame 8 false 1700000000 = Returns None) /\
    (survey = 0 -> fx <> 0 -> fy <> 0 ->
     declared_size Samples.short_frame false 8 < headerSize false \/
     byteLength Samples.short_frame < 8 + declared_size Samples.short_frame false 8 ->
     parseFrame Samples.short_frame 8 false 1700000000 = Throws RangeError) /\
    (survey = 0 -> fx <> 0 -> fy <> 0 ->
     headerSize false <= declared_size Samples.short_frame false 8 ->
     8 + declared_size Samples.short_frame false 8 <= byteLength Samples.short_frame ->
     exists frameData,
       parseFrame Samples.short_frame 8 false 1700000000 = Returns frameData).
Proof.
  apply (parseFrame_outcomes Samples.short_frame 8 false 1700000000).
  - lia.
  - vm_compute. discriminate.
Defined.

(** ** Termination of the scan *)

Lemma scanned_frames_count view isSl3 :
  Z.of_nat (List.length (scanned_frames view isSl3))
    <= Z.max 0 (byteLength view - 8).
Proof.
  pose proof (scanned_frames_sum view isSl3) as Hsum.
  assert (Hall : Forall (fun z => 1 <= z)
                   (map (declared_size view isSl3) (scanned_frames view isSl3))).
  { apply Forall_map. eapply Forall_impl; [|apply scanned_frames_inside].
    cbn. intros; lia. }
  apply sum_at_least in Hall. rewrite length_map in Hall. lia.
Qed.

(** X7.  parseSonarFile always ends, with a record sequence or with
    RangeError: every frame position the loop accepts declares at least one
    byte, so the cursor moves forward at each iteration, the loop accepts
    at most [byteLength - 8] frame positions, and iterations beyond
    [byteLength - 8] change nothing. *)
Theorem parse_terminates arrayBuffer fileName :
  ((exists records, parseSonarFile arrayBuffer fileName = Returns records) \/
   parseSonarFile arrayBuffer fileName = Throws RangeError) /\
  Z.of_nat (List.length (scanned_frames arrayBuffer (isSl3_of fileName)))
    <= Z.max 0 (byteLength arrayBuffer - 8) /\
  (forall fuel startTime,
     byteLength arrayBuffer - 8 <= Z.of_nat fuel ->
     while_frames fuel arrayBuffer (isSl3_of fileName) startTime 8 [] =
     scan arrayBuffer (isSl3_of fileName) startTime 8 []).
Proof.
  split; [|split; [apply scanned_frames_count|]];
    [|intros fuel startTime Hfuel; now apply while_frames_scan].
  pose proof (parseSonarFile_terminates arrayBuffer fileName) as H.
  destruct (parseSonarFile arrayBuffer fileName) as [records|[]|];
    [left; eauto|right; reflexivity|congruence].
Qed.

(** ** Rounding to binary64, up to one unit in the last place *)
























(** ** The coordinate transform *)







(** * The claims on the transform and on the file name *)

(** ** C9: the coordinate transform *)



(** ** C10: the format comes from the file name *)

Lemma lower_char_s c :
  lower_char c = "s"%char -> c = "s"%char \/ c = "S"%char.
Proof.
  destruct c as [[] [] [] [] [] [] [] []]; vm_compute; intros H;
    try discriminate H; auto.
Qed.

Lemma lower_char_l c :
  lower_char c = "l"%char -> c = "l"%char \/ c = "L"%char.
Proof.
  destruct c as [[] [] [] [] [] [] [] []]; vm_compute; intros H;
    try discriminate H; auto.
Qed.

Lemma lower_char_3 c : lower_char c = "3"%char -> c = "3"%char.
Proof.
  destruct c as [[] [] [] [] [] [] [] []]; vm_compute; intros H;
    try discriminate H; auto.
Qed.

(** The strings that [toLowerCase] sends to "sl3" are its four spellings. *)
Lemma toLowerCase_sl3 ext :
  toLowerCase ext = "sl3"%string <-> In ext sl3_suffixes.
Proof.
  split.
  - destruct ext as [|a [|b [|c [|d rest]]]]; cbn [toLowerCase];
      intros H; try discriminate H.
    assert (Ha : lower_char a = "s"%char) by congruence.
    assert (Hb : lower_char b = "l"%char) by congruence.
    assert (Hc : lower_char c = "3"%char) by congruence.
    apply lower_char_s in Ha. apply lower_char_l in Hb. apply lower_char_3 in Hc.
    subst c. unfold sl3_suffixes.
    destruct Ha as [-> | ->], Hb as [-> | ->]; cbn [In]; auto.
  - unfold sl3_suffixes. cbn [In].
    intros [<- | [<- | [<- | [<- | []]]]]; reflexivity.
Qed.

Lemma parseSonarFile_throws arrayBuffer fileName :
  parseSonarFile arrayBuffer fileName = Throws RangeError <->
  byteLength arrayBuffer < 4 \/
  9 <= byteLength arrayBuffer < 12 + timeBaseOffset (isSl3_of fileName) \/
  (12 + timeBaseOffset (isSl3_of fileName) <= byteLength arrayBuffer /\
   Exists (undersized_primary arrayBuffer (isSl3_of fileName))
          (scanned_frames arrayBuffer (isSl3_of fileName))).
Proof.
  destruct (Z.lt_ge_cases (byteLength arrayBuffer) 4) as [H4 | H4].
  { rewrite (parseSonarFile_below_4 _ _ H4). split; auto. }
  destruct (Z.le_gt_cases (byteLength arrayBuffer) 8) as [H8 | H8].
  { rewrite (parseSonarFile_4_to_8 _ _ (conj H4 H8)).
    split; [discriminate|]. intros [? | [? | [? _]]]; try lia.
    destruct (timeBaseOffset_cases (isSl3_of fileName)); lia. }
  destruct (Z.lt_ge_cases (byteLength arrayBuffer)
              (12 + timeBaseOffset (isSl3_of fileName))) as [Ht | Ht].
  { assert (H9 : 9 <= byteLength arrayBuffer) by lia.
    rewrite (parseSonarFile_no_time_base _ _ (conj H9 Ht)).
    split; [right; left; lia|reflexivity]. }
  destruct (parseSonarFile_scan arrayBuffer fileName Ht) as (st & _ & ->).
  rewrite <- (while_frames_scan (List.length arrayBuffer))
    by (unfold byteLength; lia).
  unfold scanned_frames.
  destruct (while_frames_outcome (List.length arrayBuffer) arrayBuffer
              (isSl3_of fileName) st 8 []) as [[Hex ->] | [Hno ->]];
    [lia|unfold byteLength; lia| |].
  - split; [intros _; right; right; split; assumption|reflexivity].
  - split; [discriminate|]. intros [? | [? | [_ Hex]]]; try lia. contradiction.
Qed.

(** C10.  [parseSonarFile] decodes with the .sl3 layout exactly when the
    file name, or what follows its last dot, is "sl3" in one of its four
    spellings (sl3, sL3, Sl3, SL3): "Sonar0001.SL3" is .sl3, and a name
    with another suffix, with the suffix further left, or with no suffix is
    decoded with the .sl2 layout.  The name has no other effect: a parse is
    what it is under "log.sl3" or "log.sl2", it throws only when a read
    leaves the buffer (the buffer is shorter than 4 bytes, or ends inside
    the time-base field, or an accepted frame declares fewer bytes than its
    header), never because of the name, and RangeError is the only error
    raised. *)
Theorem format_from_file_name arrayBuffer fileName :
  (isSl3_of fileName = true <->
   exists ext, In ext sl3_suffixes /\
               (fileName = ext \/
                exists stem, fileName = (stem ++ "." ++ ext)%string)) /\
  (isSl3_of "Sonar0001.SL3"%string = true /\
   isSl3_of "chart.tar.Sl3"%string = true /\
   isSl3_of "sL3"%string = true /\
   isSl3_of "Sonar0001.sl3"%string = true /\
   isSl3_of "Sonar0001.sl2"%string = false /\
   isSl3_of "Sonar0001.sl3.bak"%string = false /\
   isSl3_of "Sonar0001.xyz"%string = false /\
   isSl3_of "notes"%string = false) /\
  parseSonarFile arrayBuffer fileName =
  parseSonarFile arrayBuffer
    (if isSl3_of fileName then "log.sl3"%string else "log.sl2"%string) /\
  (12 + timeBaseOffset (isSl3_of fileName) <= byteLength arrayBuffer ->
   exists startTime,
     getUint32 arrayBuffer (8 + timeBaseOffset (isSl3_of fileName)) = Returns startTime /\
     parseSonarFile arrayBuffer fileName =
     scan arrayBuffer (isSl3_of fileName) startTime 8 []) /\
  (parseSonarFile arrayBuffer fileName = Throws RangeError <->
   byteLength arrayBuffer < 4 \/
   9 <= byteLength arrayBuffer < 12 + timeBaseOffset (isSl3_of fileName) \/
   (12 + timeBaseOffset (isSl3_of fileName) <= byteLength arrayBuffer /\
    Exists (undersized_primary arrayBuffer (isSl3_of fileName))
           (scanned_frames arrayBuffer (isSl3_of fileName)))) /\
  (forall e, parseSonarFile arrayBuffer fileName = Throws e -> e = RangeError).
Proof.
  split; [|split; [repeat split|split; [|split; [|split]]]].
  - rewrite isSl3_of_suffix. split; intros (ext & Hext & Hname); exists ext;
      (split; [now apply toLowerCase_sl3|exact Hname]).
  - unfold parseSonarFile.
    destruct (isSl3_of fileName) eqn:E; rewrite ?E; reflexivity.
  - apply parseSonarFile_scan.
  - apply parseSonarFile_throws.
  - intros [] _. reflexivity.
Qed.
